(** * ChatterBox TTS & VC Studio: the request handlers and the launcher

    A shallow embedding of [enhanced_gradio_app.py] (preset table, model
    session holder, seed resolution, the two generation handlers and the
    audio history store) and of [run_gradio_app.py] (the command-line
    launcher), with the properties of the design document stated on it.

    Conventions.
    - Python [float] is binary64: Rocq's primitive [float].
    - Python [int] is [Z].
    - A Python [str] that is only concatenated, compared and printed is a
      Rocq [string] holding its UTF-8 bytes (byte order and code point order
      agree on UTF-8).  The text to synthesize is measured in characters and
      stripped of Unicode white space, so it is a list of code points.
    - Everything the program asks of the libraries around it (the model
      library, torch, numpy, the clock, the file system's verdict on a write
      or a delete) is answered by a [world], as a function of the external
      calls made so far.  *)

From Stdlib Require Import ZArith Floats.PrimFloat Uint63.
From stdpp Require Import base option list gmap strings sorting pretty.

#[local] Set Warnings "-inexact-float".
#[local] Open Scope string_scope.
#[local] Open Scope Z_scope.

(** ** Strings *)

(** The line feed of Python's ["\n"]. *)
Definition LF : string := String (Ascii.ascii_of_nat 10) EmptyString.

(** [s.startswith(p)] *)
Fixpoint startswith (p s : string) : bool :=
  match p, s with
  | EmptyString, _ => true
  | String a p', String b s' => if Ascii.eqb a b then startswith p' s' else false
  | String _ _, EmptyString => false
  end.

(** [s.endswith(p)] *)
Definition endswith (p s : string) : bool :=
  startswith (String.rev p) (String.rev s).

(** [str(n)] for an [int]. *)
Definition str_int (n : Z) : string := pretty n.

(** [s.zfill(width)] for a string of digits. *)
Definition zfill (width : nat) (s : string) : string :=
  String.concat EmptyString (replicate (width - String.length s) "0") ++ s.

(** ** Text as code points *)

(** [ch.isspace()]: the code points CPython's [str.strip] removes. *)
Definition isspace (c : N) : bool :=
  ((9 <=? c) && (c <=? 13) || (28 <=? c) && (c <=? 32)
   || (c =? 133) || (c =? 160) || (c =? 5760)
   || (8192 <=? c) && (c <=? 8202)
   || (c =? 8232) || (c =? 8233) || (c =? 8239) || (c =? 8287)
   || (c =? 12288))%N.

Fixpoint lstrip (text : list N) : list N :=
  match text with
  | c :: rest => if isspace c then lstrip rest else text
  | [] => []
  end.

Definition rstrip (text : list N) : list N := rev (lstrip (rev text)).

(** [text.strip()] *)
Definition strip (text : list N) : list N := rstrip (lstrip text).

(** Truth value of a [str]: non-empty. *)
Definition truthy {A} (s : list A) : bool :=
  match s with [] => false | _ :: _ => true end.

(** [len(text)] *)
Definition len {A} (s : list A) : Z := Z.of_nat (length s).

(** ** Floats *)

(** [float(n)] for an [int] (exact below 2^53 in absolute value). *)
Definition float_of_int (n : Z) : float :=
  if n <? 0 then PrimFloat.opp (PrimFloat.of_uint63 (Uint63.of_Z (- n)))
  else PrimFloat.of_uint63 (Uint63.of_Z n).

Module enhanced_gradio_app.

(** ** What the handlers work on *)

Inductive kind := TTS | VC.

(** An instance of Python's [Exception]: its class name and [str(e)]. *)
Record exn := Exn { exc_type : string; exc_msg : string }.

(** [str(e)] *)
Definition str_exn (e : exn) : string := exc_msg e.

Inductive outcome (A : Type) :=
| Returned (a : A)
| Raised (e : exn).
Arguments Returned {A} a.
Arguments Raised {A} e.

(** A loaded model: the two attributes the handlers read. *)
Record model := Model { sr : Z; device : string }.

(** A torch tensor or numpy array: its shape and its samples. *)
Record tensor := Tensor { shape : list Z; data : list float }.

(** [datetime.now()], to the second. *)
Record datetime := Datetime {
  year : N; month : N; day : N; hour : N; minute : N; second : N;
}.

(** The keyword arguments of [model.generate] in [generate_tts]. *)
Record generation_params := GenerationParams {
  gp_exaggeration : float;
  gp_cfg_weight : float;
  gp_temperature : float;
  gp_audio_prompt_path : option string;
}.

Inductive seeder :=
| torch_manual_seed | torch_cuda_manual_seed_all | random_seed | np_random_seed.

(** The calls into the libraries, as they are made. *)
Inductive event :=
| from_pretrained_call (k : kind) (dev : string)
| seed_call (f : seeder) (seed : Z)
| randint_call (a b : Z)
| tts_generate_call (m : model) (text : list N) (params : generation_params)
| vc_generate_call (m : model) (input_audio : string)
    (target_voice_path : option string)
| numpy_call (wav : tensor)
| save_call (filepath : string) (audio : tensor) (sample_rate : Z)
| unlink_call (filepath : string).

(** The answers of the libraries.  Each is a function of the calls made
    before it, most recent first. *)
Record world := World {
  CHATTERBOX_AVAILABLE : bool;
  DEVICE : string;
  from_pretrained : kind -> string -> list event -> outcome model;
  seed_rng : seeder -> Z -> list event -> outcome unit;
  getrandbits : list event -> Z;
  tts_generate :
    model -> list N -> generation_params -> list event -> outcome tensor;
  vc_generate :
    model -> string -> option string -> list event -> outcome tensor;
  tensor_numpy : tensor -> list event -> outcome tensor;
  torchaudio_save : string -> tensor -> Z -> list event -> outcome unit;
  os_unlink : string -> list event -> outcome unit;
  datetime_now : list event -> datetime;
  time_time : list event -> float;
  format_exc : exn -> string;
  format_f : nat -> float -> string;
  str_float : float -> string;
}.

(** A file of the history directory. *)
Record wav_file := WavFile { wav_audio : tensor; wav_rate : Z }.

(** The process: the two module globals, the history directory on disk
    ([None] when it does not exist) and the calls made so far. *)
Record state := State {
  tts_model : option model;
  vc_model : option model;
  history_dir : option (gmap string wav_file);
  calls : list event;
}.

Definition set_tts_model (m : option model) (st : state) : state :=
  State m (vc_model st) (history_dir st) (calls st).
Definition set_vc_model (m : option model) (st : state) : state :=
  State (tts_model st) m (history_dir st) (calls st).
Definition set_history_dir (d : option (gmap string wav_file)) (st : state) : state :=
  State (tts_model st) (vc_model st) d (calls st).
Definition record_call (ev : event) (st : state) : state :=
  State (tts_model st) (vc_model st) (history_dir st) (ev :: calls st).

(** The process right after import: nothing loaded, and the directory
    exists ([AUDIO_HISTORY_DIR.mkdir(exist_ok=True)]) with the files earlier
    runs left in it. *)
Definition initial_state (files : gmap string wav_file) : state :=
  State None None (Some files) [].

(** ** Statements that read and write the process and may raise *)

Definition M (A : Type) : Type := state -> outcome A * state.

#[global] Instance M_ret : MRet M := fun A a st => (Returned a, st).
#[global] Instance M_bind : MBind M := fun A B f c st =>
  match c st with
  | (Returned a, st') => f a st'
  | (Raised e, st') => (Raised e, st')
  end.

Definition raise {A} (e : exn) : M A := fun st => (Raised e, st).

(** [try: body / except Exception as e: handler e] *)
Definition try_except {A} (body : M A) (handler : exn -> M A) : M A :=
  fun st =>
    match body st with
    | (Returned a, st') => (Returned a, st')
    | (Raised e, st') => handler e st'
    end.

Definition get {A} (f : state -> A) : M A := fun st => (Returned (f st), st).
Definition modify (f : state -> state) : M unit := fun st => (Returned tt, f st).

(** A call into a library: it is recorded, and the world answers it from
    the calls made before. *)
Definition call {A} (ev : event) (answer : list event -> outcome A) : M A :=
  fun st => (answer (calls st), record_call ev st).

(** A read of the clock or of a formatter does not count as a call. *)
Definition ask {A} (answer : list event -> A) : M A :=
  fun st => (Returned (answer (calls st)), st).

(** [for x in xs: body x] *)
Fixpoint for_each {A} (xs : list A) (body : A -> M unit) : M unit :=
  match xs with
  | [] => mret tt
  | x :: rest => _ ← body x; for_each rest body
  end.

(** ** Global configuration *)

Definition MAX_TEXT_LENGTH : Z := 500.
Definition SAMPLE_RATE : Z := 24000.
Definition AUDIO_HISTORY_DIR : string := "audio_history".

(** ** Preset table *)

(** One value of the dict of [get_preset_configs]. *)
Record config := Config {
  exaggeration : float;
  cfg_weight : float;
  temperature : float;
}.

(** The dict literal of [get_preset_configs], in the order it is written. *)
Definition preset_items : list (string * config) :=
  [ ("Neutral",              Config 0.5 0.5 0.8);
    ("Calm & Controlled",    Config 0.2 0.7 0.6);
    ("Expressive & Dynamic", Config 0.8 0.3 0.9);
    ("Dramatic & Intense",   Config 1.2 0.2 1.0);
    ("Robotic & Stable",     Config 0.1 0.8 0.5);
    ("Creative & Varied",    Config 0.7 0.4 1.2) ]%float.

Definition get_preset_configs : gmap string config := list_to_map preset_items.

(** [apply_preset(preset)] *)
Definition apply_preset (preset : string) : float * float * float :=
  if decide (preset = "Custom") then (0.5, 0.5, 0.8)%float
  else
    let configs := get_preset_configs in
    match configs !! preset with
    | Some config => (exaggeration config, cfg_weight config, temperature config)
    | None => (0.5, 0.5, 0.8)%float
    end.


(** ** Tensors and arithmetic that can raise *)

(** [t.dim()] *)
Definition dim (t : tensor) : Z := len (shape t).

(** [t.squeeze(0)]: drops the first axis when its size is 1. *)
Definition squeeze0 (t : tensor) : tensor :=
  match shape t with
  | 1 :: rest => Tensor rest (data t)
  | _ => t
  end.

(** [t.unsqueeze(0)] *)
Definition unsqueeze0 (t : tensor) : tensor := Tensor (1 :: shape t) (data t).

(** [len(a)] of an array: the size of its first axis. *)
Definition array_len (a : tensor) : M Z :=
  match shape a with
  | n :: _ => mret n
  | [] => raise (Exn "TypeError" "len() of unsized object")
  end.

(** [a / b] on two [int]s. *)
Definition int_truediv (a b : Z) : M float :=
  if b =? 0 then raise (Exn "ZeroDivisionError" "division by zero")
  else mret (PrimFloat.div (float_of_int a) (float_of_int b)).

(** [a / b] on two [float]s. *)
Definition float_truediv (a b : float) : M float :=
  if PrimFloat.eqb b 0%float
  then raise (Exn "ZeroDivisionError" "float division by zero")
  else mret (PrimFloat.div a b).

(** [now.strftime("%Y%m%d_%H%M%S")] *)
Definition strftime (d : datetime) : string :=
  zfill 4 (pretty (year d)) ++ zfill 2 (pretty (month d))
  ++ zfill 2 (pretty (day d)) ++ "_" ++ zfill 2 (pretty (hour d))
  ++ zfill 2 (pretty (minute d)) ++ zfill 2 (pretty (second d)).

(** [sorted(l, reverse=True)] on strings: the order is total and equal
    strings are identical, so the result is the one descending
    arrangement of [l]. *)
Definition str_ge (a b : string) : Prop := String.leb b a = true.

#[global] Instance str_ge_dec : RelDecision str_ge.
Proof. intros a b. unfold str_ge. apply _. Defined.

Definition sorted_reverse (l : list string) : list string := merge_sort str_ge l.

(** [str(AUDIO_HISTORY_DIR / filename)] *)
Definition history_path (filename : string) : string :=
  AUDIO_HISTORY_DIR ++ "/" ++ filename.

(** The names [AUDIO_HISTORY_DIR.glob("*.wav")] yields, in the order the
    directory lists them. *)
Definition glob_wav (files : gmap string wav_file) : list string :=
  filter (fun name => endswith ".wav" name) (map_to_list files).*1.

Section Handlers.
Context (w : world).

(** [random.randint(a, b)]: some integer of [a..b], the generator's choice. *)
Definition randint (a b : Z) : M Z :=
  call (randint_call a b)
       (fun l => Returned (a + getrandbits w l mod (b - a + 1))).

Definition seed_with (f : seeder) (seed : Z) : M unit :=
  call (seed_call f seed) (seed_rng w f seed).

(** [set_seed(seed)] *)
Definition set_seed (seed : Z) : M Z :=
  seed ← (if seed =? 0 then randint 1 1000000 else mret seed);
  _ ← seed_with torch_manual_seed seed;
  _ ← seed_with torch_cuda_manual_seed_all seed;
  _ ← seed_with random_seed seed;
  _ ← seed_with np_random_seed seed;
  mret seed.

(** *** Model session holder *)

Definition kind_name (k : kind) : string :=
  match k with TTS => "TTS" | VC => "VC" end.

Definition disk_space (k : kind) : string :=
  match k with TTS => "~2GB" | VC => "~1GB" end.

(** The global [tts_model] or [vc_model]. *)
Definition session (k : kind) (st : state) : option model :=
  match k with TTS => tts_model st | VC => vc_model st end.

Definition set_session (k : kind) (m : option model) : state -> state :=
  match k with TTS => set_tts_model m | VC => set_vc_model m end.

Definition not_installed_status : string :=
  "❌ ChatterBox not installed. Please install with: pip install chatterbox-tts".

Definition loaded_status (k : kind) (load_time : float) (m : model) : string :=
  "✅ " ++ kind_name k ++ " Model loaded successfully in "
    ++ format_f w 1 load_time ++ "s" ++ LF
  ++ "🎵 Sample rate: " ++ str_int (sr m) ++ " Hz" ++ LF
  ++ "🎯 Device: " ++ device m.

Definition already_loaded_status (k : kind) : string :=
  "✅ " ++ kind_name k ++ " Model already loaded".

Definition load_error_msg (k : kind) (e : exn) : string :=
  "❌ Failed to load " ++ kind_name k ++ " model: " ++ str_exn e ++ LF ++ LF
  ++ "🔧 Troubleshooting:" ++ LF
  ++ "1. Ensure internet connection for model download" ++ LF
  ++ "2. Check available disk space (" ++ disk_space k ++ " needed)" ++ LF
  ++ "3. Try restarting if memory issues occur".

(** [load_tts_model()] and [load_vc_model()]: the two functions differ in
    the global they use, the class they construct and the words "TTS"/"VC"
    and "~2GB"/"~1GB" of their messages.  The progress line they print is
    left out. *)
Definition load_model (k : kind) : M (option model * string) :=
  if negb (CHATTERBOX_AVAILABLE w) then mret (None, not_installed_status)
  else
    try_except
      (current ← get (session k);
       match current with
       | None =>
           start_time ← ask (time_time w);
           m ← call (from_pretrained_call k (DEVICE w))
                    (from_pretrained w k (DEVICE w));
           _ ← modify (set_session k (Some m));
           end_time ← ask (time_time w);
           let load_time := PrimFloat.sub end_time start_time in
           mret (Some m, loaded_status k load_time m)
       | Some m => mret (Some m, already_loaded_status k)
       end)
      (fun e => mret (None, load_error_msg k e)).

Definition load_tts_model : M (option model * string) := load_model TTS.
Definition load_vc_model : M (option model * string) := load_model VC.

(** *** Audio history store *)

(** [torchaudio.save(filepath, audio, sample_rate)]: when the library
    returns, the file is in the directory (replacing one of that name). *)
Definition torchaudio_save_file (filename : string) (audio : tensor)
    (sample_rate : Z) : M unit :=
  _ ← call (save_call (history_path filename) audio sample_rate)
           (torchaudio_save w (history_path filename) audio sample_rate);
  d ← get history_dir;
  match d with
  | Some files =>
      modify (set_history_dir (Some (<[filename := WavFile audio sample_rate]> files)))
  | None => raise (Exn "RuntimeError" "No such file or directory")
  end.

(** [save_audio_to_history(audio_data, sample_rate, prefix)] *)
Definition save_audio_to_history (audio_data : tensor) (sample_rate : Z)
    (prefix : string) : M string :=
  now ← ask (datetime_now w);
  let timestamp := strftime now in
  let filename := prefix ++ "_" ++ timestamp ++ ".wav" in
  let filepath := history_path filename in
  let audio_tensor := audio_data in
  let audio_tensor :=
    if dim audio_tensor =? 1 then unsqueeze0 audio_tensor else audio_tensor in
  _ ← torchaudio_save_file filename audio_tensor sample_rate;
  mret filepath.

(** [get_audio_history()] *)
Definition get_audio_history : M (list string) :=
  d ← get history_dir;
  match d with
  | None => mret []
  | Some files =>
      let audio_files := history_path <$> glob_wav files in
      mret (sorted_reverse audio_files)
  end.

(** [file_path.unlink()] *)
Definition unlink (filename : string) : M unit :=
  _ ← call (unlink_call (history_path filename))
           (os_unlink w (history_path filename));
  modify (fun st => set_history_dir (delete filename <$> history_dir st) st).

(** [clear_audio_history()] *)
Definition clear_audio_history : M string :=
  try_except
    (d ← get history_dir;
     let names := match d with Some files => glob_wav files | None => [] end in
     _ ← for_each names unlink;
     mret "✅ Audio history cleared successfully")
    (fun e => mret ("❌ Failed to clear history: " ++ str_exn e)).

(** *** Generation request handler *)

Definition tts_status_msg (duration generation_time rtf : float)
    (actual_seed : Z) (history_path : string)
    (exaggeration cfg_weight temperature : float) : string :=
  "✅ Generated " ++ format_f w 1 duration ++ "s audio in "
    ++ format_f w 1 generation_time ++ "s" ++ LF
  ++ "📊 Real-time factor: " ++ format_f w 2 rtf ++ "x" ++ LF
  ++ "🎲 Seed used: " ++ str_int actual_seed ++ LF
  ++ "💾 Saved to: " ++ history_path ++ LF
  ++ "🎛️ Settings: exag=" ++ str_float w exaggeration
    ++ ", cfg=" ++ str_float w cfg_weight
    ++ ", temp=" ++ str_float w temperature.

Definition tts_error_msg (e : exn) : string :=
  "❌ Generation failed: " ++ str_exn e ++ LF ++ LF
  ++ "🔍 Debug info:" ++ LF ++ format_exc w e.

Definition empty_text_status : string :=
  "❌ Please enter some text to synthesize".

Definition text_too_long_status : string :=
  "❌ Text too long. Maximum " ++ str_int MAX_TEXT_LENGTH
  ++ " characters allowed.".

(** The three values [generate_tts] goes on with after its preset block. *)
Definition effective_settings (preset : string)
    (exaggeration cfg_weight temperature : float) : float * float * float :=
  if decide (preset ≠ "Custom") then
    let preset_configs := get_preset_configs in
    match preset_configs !! preset with
    | Some config =>
        (enhanced_gradio_app.exaggeration config,
         enhanced_gradio_app.cfg_weight config,
         enhanced_gradio_app.temperature config)
    | None => (exaggeration, cfg_weight, temperature)
    end
  else (exaggeration, cfg_weight, temperature).

(** [generate_tts(text, reference_audio, exaggeration, cfg_weight,
    temperature, seed, preset)] *)
Definition generate_tts (text : list N) (reference_audio : option string)
    (exaggeration cfg_weight temperature : float) (seed : Z)
    (preset : string) : M (option (Z * tensor) * string) :=
  if negb (truthy text) || negb (truthy (strip text)) then
    mret (None, empty_text_status)
  else if len text >? MAX_TEXT_LENGTH then
    mret (None, text_too_long_status)
  else
    '(model, status) ← load_tts_model;
    match model with
    | None => mret (None, status)
    | Some model =>
        try_except
          (let '(exaggeration, cfg_weight, temperature) :=
             effective_settings preset exaggeration cfg_weight temperature in
           actual_seed ← set_seed seed;
           start_time ← ask (time_time w);
           let generation_params :=
             GenerationParams exaggeration cfg_weight temperature
                              reference_audio in
           wav ← call (tts_generate_call model text generation_params)
                      (tts_generate w model text generation_params);
           end_time ← ask (time_time w);
           let generation_time := PrimFloat.sub end_time start_time in
           audio_np ← call (numpy_call (squeeze0 wav))
                           (tensor_numpy w (squeeze0 wav));
           history_path ← save_audio_to_history audio_np (sr model) "tts";
           n ← array_len audio_np;
           duration ← int_truediv n (sr model);
           rtf ← float_truediv generation_time duration;
           let status_msg :=
             tts_status_msg duration generation_time rtf actual_seed
                            history_path exaggeration cfg_weight temperature in
           mret (Some (sr model, audio_np), status_msg))
          (fun e => mret (None, tts_error_msg e))
    end.

Definition vc_status_msg (duration generation_time : float)
    (history_path : string) : string :=
  "✅ Converted " ++ format_f w 1 duration ++ "s audio in "
    ++ format_f w 1 generation_time ++ "s" ++ LF
  ++ "💾 Saved to: " ++ history_path.

Definition vc_error_msg (e : exn) : string :=
  "❌ Voice conversion failed: " ++ str_exn e ++ LF ++ LF
  ++ "🔍 Debug info:" ++ LF ++ format_exc w e.

Definition missing_input_status : string :=
  "❌ Please provide input audio for voice conversion".

(** [generate_vc(input_audio, target_voice_audio)] *)
Definition generate_vc (input_audio target_voice_audio : option string)
    : M (option (Z * tensor) * string) :=
  match input_audio with
  | None => mret (None, missing_input_status)
  | Some input_audio =>
      '(model, status) ← load_vc_model;
      match model with
      | None => mret (None, status)
      | Some model =>
          try_except
            (start_time ← ask (time_time w);
             wav ← call (vc_generate_call model input_audio target_voice_audio)
                        (vc_generate w model input_audio target_voice_audio);
             end_time ← ask (time_time w);
             let generation_time := PrimFloat.sub end_time start_time in
             audio_np ← call (numpy_call (squeeze0 wav))
                             (tensor_numpy w (squeeze0 wav));
             history_path ← save_audio_to_history audio_np (sr model) "vc";
             n ← array_len audio_np;
             duration ← int_truediv n (sr model);
             let status_msg :=
               vc_status_msg duration generation_time history_path in
             mret (Some (sr model, audio_np), status_msg))
            (fun e => mret (None, vc_error_msg e))
      end
  end.

End Handlers.

(** *** Sample texts *)

Definition SAMPLE_TEXTS : list string :=
  [ "Hello! Welcome to ChatterBox TTS, the state-of-the-art open source text-to-speech system.";
    "The quick brown fox jumps over the lazy dog. This pangram contains every letter of the alphabet.";
    "In a hole in the ground there lived a hobbit. Not a nasty, dirty, wet hole filled with worms and oozy smells.";
    "To be or not to be, that is the question. Whether 'tis nobler in the mind to suffer the slings and arrows of outrageous fortune.";
    "It was the best of times, it was the worst of times, it was the age of wisdom, it was the age of foolishness.";
    "Space: the final frontier. These are the voyages of the starship Enterprise, to boldly go where no one has gone before." ].

(** [s.split(".")[0]]: what comes before the first full stop. *)
Fixpoint before_dot (s : string) : string :=
  match s with
  | EmptyString => EmptyString
  | String ch rest =>
      if Ascii.eqb ch (Ascii.ascii_of_nat 46) then EmptyString
      else String ch (before_dot rest)
  end.

(** [load_sample_text(sample_choice)].  [int] is Python's [int] on a
    string, [None] when it raises; the bare [except] swallows that. *)
Definition load_sample_text (int : string -> option Z)
    (sample_choice : string) : string :=
  if decide (sample_choice = "Custom") then EmptyString
  else
    match int (before_dot sample_choice) with
    | Some n =>
        let index := n - 1 in
        if (0 <=? index) && (index <? len SAMPLE_TEXTS) then
          default EmptyString (SAMPLE_TEXTS !! Z.to_nat index)
        else EmptyString
    | None => EmptyString
    end.

(** The label of sample [i] in the dropdown: its number, a full stop, the
    first fifty characters and an ellipsis. *)
Definition sample_label (i : nat) (text : string) : string :=
  str_int (Z.of_nat i + 1) ++ ". " ++ String.substring 0 50 text ++ "...".

(** The choices of the sample dropdown. *)
Definition sample_choices : list string :=
  "Custom" :: imap sample_label SAMPLE_TEXTS.

(** *** Launch *)

(** The keyword arguments [launch] is called with on the queued interface. *)
Record launch_kwargs := LaunchKwargs {
  server_name : string;
  server_port : Z;
  share : bool;
  show_error : bool;
  quiet : bool;
  show_tips : bool;
  enable_queue : bool;
  max_threads : Z;
}.

(** [main()]: the arguments it launches the interface with.  The function
    has the process environment at hand and does not read it. *)
Definition main (environ : gmap string string) : launch_kwargs :=
  let launch_kwargs :=
    {| server_name := "0.0.0.0";
       server_port := 7860;
       share := true;
       show_error := true;
       quiet := false;
       show_tips := true;
       enable_queue := true;
       max_threads := 4 |} in
  launch_kwargs.

End enhanced_gradio_app.

(** ** The launcher *)

Module run_gradio_app.

(** The namespace [parser.parse_args()] returns. *)
Record args := Args {
  port : Z;
  host : string;
  no_share : bool;
  cpu : bool;
  install_deps : bool;
}.

(** What the launcher finds on the machine. *)
Record machine := Machine {
  install_dependencies : bool;
  check_dependencies : list string;
  check_chatterbox : bool;
  get_device_info : string;
  app_file_exists : bool;
  import_app : option string;
}.

Inductive result :=
| SystemExit (code : Z)
| Launched (environ : gmap string string)
           (kwargs : enhanced_gradio_app.launch_kwargs).

(** [str(args.port)] and the like go to [os.environ]. *)
Definition main (mc : machine) (args : args) (environ : gmap string string)
    : result :=
  if install_deps args && negb (install_dependencies mc) then SystemExit 1
  else
    let missing := check_dependencies mc in
    if truthy missing then SystemExit 1
    else if negb (check_chatterbox mc) then SystemExit 1
    else
      let device := get_device_info mc in
      let environ :=
        if cpu args then <["CUDA_VISIBLE_DEVICES" := EmptyString]> environ
        else environ in
      if negb (app_file_exists mc) then SystemExit 1
      else
        let environ := <["GRADIO_SERVER_NAME" := host args]> environ in
        let environ := <["GRADIO_SERVER_PORT" := str_int (port args)]> environ in
        let environ :=
          if no_share args then <["GRADIO_SHARE" := "False"]> environ
          else <["GRADIO_SHARE" := "True"]> environ in
        match import_app mc with
        | Some _ => SystemExit 1
        | None => Launched environ (enhanced_gradio_app.main environ)
        end.

End run_gradio_app.

(** ** The states a process goes through *)

Module Process.
Import enhanced_gradio_app.


End Process.

(** ** A stubbed machine to run the handlers on *)

Module Stub.
Import enhanced_gradio_app.

Definition stub_model : model := Model 4 "cpu".

(** One second of silence at the stub's sample rate. *)
Definition silence : tensor := Tensor [1; 4] [0; 0; 0; 0]%float.

(** The clock ticks one second per library call, from 2024-01-01 00:00:00. *)
Definition clock (l : list event) : datetime :=
  Datetime 2024 1 1 0 0 (N.of_nat (length l)).

(** Everything is installed and every call succeeds. *)
Definition good_world : world :=
  {| CHATTERBOX_AVAILABLE := true;
     DEVICE := "cpu";
     from_pretrained := fun _ _ _ => Returned stub_model;
     seed_rng := fun _ _ _ => Returned tt;
     getrandbits := fun _ => 41;
     tts_generate := fun _ _ _ _ => Returned silence;
     vc_generate := fun _ _ _ _ => Returned silence;
     tensor_numpy := fun t _ => Returned t;
     torchaudio_save := fun _ _ _ _ => Returned tt;
     os_unlink := fun _ _ => Returned tt;
     datetime_now := clock;
     time_time := fun l => float_of_int (Z.of_nat (length l));
     format_exc := fun e => exc_type e ++ ": " ++ exc_msg e;
     format_f := fun _ _ => "1.0";
     str_float := fun _ => "x" |}.

(** The model library is not installed. *)
Definition bare_world : world :=
  {| CHATTERBOX_AVAILABLE := false;
     DEVICE := "cpu";
     from_pretrained := fun _ _ _ => Raised (Exn "ImportError" "no chatterbox");
     seed_rng := fun _ _ _ => Returned tt;
     getrandbits := fun _ => 41;
     tts_generate := fun _ _ _ _ => Returned silence;
     vc_generate := fun _ _ _ _ => Returned silence;
     tensor_numpy := fun t _ => Returned t;
     torchaudio_save := fun _ _ _ _ => Returned tt;
     os_unlink := fun _ _ => Returned tt;
     datetime_now := clock;
     time_time := fun l => float_of_int (Z.of_nat (length l));
     format_exc := fun e => exc_type e ++ ": " ++ exc_msg e;
     format_f := fun _ _ => "1.0";
     str_float := fun _ => "x" |}.

(** Construction fails while no construction has been tried, and succeeds
    afterwards. *)
Definition flaky_world : world :=
  {| CHATTERBOX_AVAILABLE := true;
     DEVICE := "cpu";
     from_pretrained := fun _ _ l =>
       match l with
       | [] => Raised (Exn "OSError" "download failed")
       | _ => Returned stub_model
       end;
     seed_rng := fun _ _ _ => Returned tt;
     getrandbits := fun _ => 41;
     tts_generate := fun _ _ _ _ => Returned silence;
     vc_generate := fun _ _ _ _ => Returned silence;
     tensor_numpy := fun t _ => Returned t;
     torchaudio_save := fun _ _ _ _ => Returned tt;
     os_unlink := fun _ _ => Returned tt;
     datetime_now := clock;
     time_time := fun l => float_of_int (Z.of_nat (length l));
     format_exc := fun e => exc_type e ++ ": " ++ exc_msg e;
     format_f := fun _ _ => "1.0";
     str_float := fun _ => "x" |}.

(** The history after a voice conversion followed by a synthesis, in a
    fresh process over an empty directory. *)
Definition after_vc_then_tts : state :=
  snd (generate_tts good_world [72; 105]%N None 0.5 0.5 0.8 0 "Neutral"
         (snd (generate_vc good_world (Some "input.wav") None
                 (initial_state ∅)))).

(** Two saves one second apart: a converted voice, then a synthesis. *)
Definition saved_vc : outcome string * state :=
  save_audio_to_history good_world silence 4 "vc" (initial_state ∅).
Definition saved_tts : outcome string * state :=
  save_audio_to_history good_world silence 4 "tts" (snd saved_vc).


(** A machine with every dependency installed. *)
Definition ready_machine : run_gradio_app.machine :=
  run_gradio_app.Machine true [] true "cpu" true None.

(** "Hello world" *)
Definition hello_world : list N :=
  [72; 101; 108; 108; 111; 32; 119; 111; 114; 108; 100]%N.

(** A fresh process over an empty history directory. *)
Definition fresh : state := initial_state ∅.

End Stub.

(** * The vocabulary of the properties *)

Module Spec.
Import enhanced_gradio_app.

(** [total c Q]: from every state, [c] returns (it does not raise), and
    what it returns satisfies [Q]. *)
Definition total {A} (c : M A) (Q : A → Prop) : Prop :=
  ∀ st, ∃ a st', c st = (Returned a, st') ∧ Q a.

(** [post c Q]: whatever [c] returns satisfies [Q]. *)
Definition post {A} (c : M A) (Q : A → Prop) : Prop :=
  ∀ st a st', c st = (Returned a, st') → Q a.

(** Every failure message opens with the cross mark, every success message
    with the check mark. *)
Definition is_failure_status (status : string) : Prop := startswith "❌ " status = true.
Definition is_success_status (status : string) : Prop := startswith "✅ " status = true.


(** [steps R c]: running [c] takes a state to an [R]-related one, whether
    it returns or raises. *)
Definition steps (R : relation state) {A} (c : M A) : Prop :=
  ∀ st, R st (snd (c st)).

(** A session is only ever set by [load_model], past its guard on
    [CHATTERBOX_AVAILABLE]. *)
Definition consistent (w : world) (st : state) : Prop :=
  ∀ k, is_Some (session k st) → CHATTERBOX_AVAILABLE w = true.

Definition keeps_consistent (w : world) : relation state :=
  λ st st', consistent w st → consistent w st'.

(** The sessions are left as they are. *)
Definition same_sessions : relation state :=
  λ st st', ∀ k, session k st' = session k st.

(** The four seeding functions take [seed] (numpy, for one, refuses a seed
    outside 0..2^32-1). *)
Definition seeders_accept (w : world) (seed : Z) : Prop :=
  ∀ f l, seed_rng w f seed l = Returned tt.

(** The state after the four seeding calls. *)
Definition seeded (seed : Z) (st : state) : state :=
  record_call (seed_call np_random_seed seed)
    (record_call (seed_call random_seed seed)
       (record_call (seed_call torch_cuda_manual_seed_all seed)
          (record_call (seed_call torch_manual_seed seed) st))).

(** The library calls made from state [before] up to state [after]. *)
Definition new_calls (before after : state) : list event :=
  take (length (calls after) - length (calls before)) (calls after).

(** The calls only grow, and by calls that satisfy [allowed]. *)
Definition calls_extend (allowed : event → Prop) : relation state :=
  λ st st', ∃ new, calls st' = (new ++ calls st)%list ∧ Forall allowed new.

(** Not a call of the TTS model. *)
Definition not_tts_generate (ev : event) : Prop :=
  match ev with tts_generate_call _ _ _ => False | _ => True end.

(** Empty, or white space only. *)
Definition blank (text : list N) : Prop := Forall (λ ch, isspace ch = true) text.

(** One of the two messages of the validation at the top of [generate_tts]. *)
Definition validation_failure (status : string) : Prop :=
  status = empty_text_status ∨ status = text_too_long_status.

(** The bytes the two validation messages open with, and no other message
    of [generate_tts] does. *)
Definition opens_like_validation (status : string) : bool :=
  startswith "❌ P" status || startswith "❌ T" status.

End Spec.

(** * More vocabulary: the history's file names *)

Module History.
Import enhanced_gradio_app.

(** A [datetime] whose fields print in the widths the format gives them:
    four digits for the year and two for each of the others. *)
Definition well_formed (d : datetime) : Prop :=
  (year d < 10000 ∧ month d < 100 ∧ day d < 100
   ∧ hour d < 100 ∧ minute d < 100 ∧ second d < 100)%N.

(** The first difference decides. *)
Definition lex (c1 c2 : comparison) : comparison :=
  match c1 with Eq => c2 | _ => c1 end.

(** Chronological order: year, then month, day, hour, minute, second. *)
Definition datetime_compare (d1 d2 : datetime) : comparison :=
  lex (year d1 ?= year d2)%N
    (lex (month d1 ?= month d2)%N
       (lex (day d1 ?= day d2)%N
          (lex (hour d1 ?= hour d2)%N
             (lex (minute d1 ?= minute d2)%N (second d1 ?= second d2)%N)))).

(** The name [save_audio_to_history] gives a file saved at [d]. *)
Definition history_filename (prefix : string) (d : datetime) : string :=
  prefix ++ "_" ++ strftime d ++ ".wav".

(** The two-digit and four-digit fields of the format. *)
Definition two_digits (n : N) : string := zfill 2 (pretty n).
Definition four_digits (n : N) : string := zfill 4 (pretty n).

End History.

(** * More vocabulary: what the interface asks of the process *)

Module Behaviour.
Import enhanced_gradio_app.

(** The events the interface is wired to: the two "Load model" buttons,
    the two "Generate" buttons, the listing and the clearing of the
    history. *)
Inductive operation :=
| do_load (k : kind)
| do_tts (text : list N) (reference_audio : option string)
    (exaggeration cfg_weight temperature : float) (seed : Z)
    (preset : string)
| do_vc (input_audio target_voice_audio : option string)
| do_list
| do_clear.

(** The state the process is in after an operation. *)
Definition perform (w : world) (st : state) (op : operation) : state :=
  match op with
  | do_load k => snd (load_model w k st)
  | do_tts text reference_audio exaggeration cfg_weight temperature seed
      preset =>
      snd (generate_tts w text reference_audio exaggeration cfg_weight
                        temperature seed preset st)
  | do_vc input_audio target_voice_audio =>
      snd (generate_vc w input_audio target_voice_audio st)
  | do_list => snd (get_audio_history st)
  | do_clear => snd (clear_audio_history w st)
  end.

(** A session that is loaded is still loaded, with the same model. *)
Definition keeps_loaded : relation state :=
  λ st st', ∀ k m, session k st = Some m → session k st' = Some m.

(** The directory is there before and after, or missing before and
    after, and only files whose name satisfies [mine] differ. *)
Definition touches_only (mine : string → bool) : relation state :=
  λ st st',
    match history_dir st, history_dir st' with
    | Some files, Some files' =>
        ∀ name, mine name = false → files' !! name = files !! name
    | None, None => True
    | _, _ => False
    end.

(** No file of the directory goes away. *)
Definition keeps_files : relation state :=
  λ st st',
    match history_dir st, history_dir st' with
    | Some files, Some files' =>
        ∀ name, is_Some (files !! name) → is_Some (files' !! name)
    | None, None => True
    | _, _ => False
    end.

(** The names [save_audio_to_history] gives under a prefix. *)
Definition saved_under (prefix : string) (name : string) : bool :=
  startswith (prefix ++ "_") name && endswith ".wav" name.

(** [triple P c Q]: from a state that satisfies [P], whatever [c] returns
    satisfies [Q] together with the state it returns in. *)
Definition triple {A} (P : state → Prop) (c : M A)
    (Q : A → state → Prop) : Prop :=
  ∀ st a st', P st → c st = (Returned a, st') → Q a st'.

(** Neither model is invoked. *)
Definition no_generate (ev : event) : Prop :=
  match ev with
  | tts_generate_call _ _ _ | vc_generate_call _ _ _ => False
  | _ => True
  end.

(** The library calls a synthesis of [text] with [reference_audio] may
    make. *)
Definition tts_footprint (text : list N) (reference_audio : option string)
    (ev : event) : Prop :=
  match ev with
  | from_pretrained_call k _ => k = TTS
  | randint_call a b => a = 1 ∧ b = 1000000
  | seed_call _ _ => True
  | tts_generate_call _ txt params =>
      txt = text ∧ gp_audio_prompt_path params = reference_audio
  | numpy_call _ => True
  | save_call filepath _ _ =>
      ∃ name, filepath = history_path name ∧ saved_under "tts" name = true
  | vc_generate_call _ _ _ | unlink_call _ => False
  end.

(** The library calls a conversion of [input_audio] to the voice of
    [target_voice_audio] may make. *)
Definition vc_footprint (input_audio : string)
    (target_voice_audio : option string) (ev : event) : Prop :=
  match ev with
  | from_pretrained_call k _ => k = VC
  | vc_generate_call _ input target =>
      input = input_audio ∧ target = target_voice_audio
  | numpy_call _ => True
  | save_call filepath _ _ =>
      ∃ name, filepath = history_path name ∧ saved_under "vc" name = true
  | tts_generate_call _ _ _ | seed_call _ _ | randint_call _ _
  | unlink_call _ => False
  end.

(** The file a returned save has left. *)
Definition saved_as (prefix : string) (audio : tensor) (rate : Z)
    (path : string) (st : state) : Prop :=
  ∃ files name,
    path = history_path name
    ∧ saved_under prefix name = true
    ∧ history_dir st = Some files
    ∧ files !! name
      = Some (WavFile (if dim audio =? 1 then unsqueeze0 audio else audio)
                      rate).

End Behaviour.

(** * More vocabulary: the launcher's checks *)

Module Launcher.
Import run_gradio_app.


(** The variables the launcher writes. *)
Definition launcher_variables : list string :=
  [ "CUDA_VISIBLE_DEVICES"; "GRADIO_SERVER_NAME"; "GRADIO_SERVER_PORT";
    "GRADIO_SHARE" ].

(** What [check_dependencies] and [install_dependencies] find: which
    modules import, whether [gradio_requirements.txt] is there, and the
    exit status of each pip run given the runs before it. *)
Record packages := Packages {
  importable : string → bool;
  requirements_file_exists : bool;
  pip_succeeds : list string → list (list string) → bool;
}.



Definition core_packages : list string :=
  [ "gradio>=4.0.0"; "torch>=2.0.0"; "torchaudio>=2.0.0"; "numpy>=1.21.0";
    "librosa>=0.9.0"; "chatterbox-tts" ].

(** The arguments of one [python -m pip install ...]. *)
Definition pip_install (what : list string) : list string :=
  "-m" :: "pip" :: "install" :: what.

(** The loop over the core packages: [check_call] raises at the first
    run that fails. *)
Fixpoint install_each (pk : packages) (todo : list string)
    (ran : list (list string)) : bool * list (list string) :=
  match todo with
  | [] => (true, ran)
  | package :: rest =>
      let command := pip_install [package] in
      if pip_succeeds pk command ran
      then install_each pk rest (ran ++ [command])%list
      else (false, (ran ++ [command])%list)
  end.

(** [install_dependencies()]: its result, and the pip runs it made. *)
Definition run_install (pk : packages) : bool * list (list string) :=
  if requirements_file_exists pk then
    let command := pip_install ["-r"; "gradio_requirements.txt"] in
    (pip_succeeds pk command [], [command])
  else install_each pk core_packages [].


End Launcher.

(** * More stubbed machines *)

Module Scenario.
Import enhanced_gradio_app.

(** A machine like [Stub.good_world] but for its clock, its model, and
    what the file system says to a write and to a delete. *)
Definition world_with (now : list event → datetime)
    (generate : outcome tensor)
    (save : string → outcome unit) (remove : string → outcome unit)
    : world :=
  {| CHATTERBOX_AVAILABLE := true;
     DEVICE := "cpu";
     from_pretrained := fun _ _ _ => Returned Stub.stub_model;
     seed_rng := fun _ _ _ => Returned tt;
     getrandbits := fun _ => 41;
     tts_generate := fun _ _ _ _ => generate;
     vc_generate := fun _ _ _ _ => generate;
     tensor_numpy := fun t _ => Returned t;
     torchaudio_save := fun path _ _ _ => save path;
     os_unlink := fun path _ => remove path;
     datetime_now := now;
     time_time := fun l => float_of_int (Z.of_nat (length l));
     format_exc := fun e => exc_type e ++ ": " ++ exc_msg e;
     format_f := fun _ _ => "1.0";
     str_float := fun _ => "x" |}.


(** The clock stands still. *)
Definition noon : datetime := Datetime 2024 6 1 12 0 0.
Definition frozen_world : world :=
  world_with (fun _ => noon) (Returned Stub.silence)
    (fun _ => Returned tt) (fun _ => Returned tt).

(** One file of the history cannot be deleted. *)
Definition locked_path : string := "audio_history/tts_20240101_000012.wav".
Definition locked_world : world :=
  world_with Stub.clock (Returned Stub.silence) (fun _ => Returned tt)
    (fun path =>
       if String.eqb path locked_path
       then Raised (Exn "PermissionError" "Permission denied")
       else Returned tt).

(** The model returns a waveform without samples. *)
Definition no_samples : tensor := Tensor [1; 0] [].
Definition mute_world : world :=
  world_with Stub.clock (Returned no_samples)
    (fun _ => Returned tt) (fun _ => Returned tt).

(** A process whose TTS session is loaded. *)
Definition tts_loaded : state :=
  snd (load_model Stub.good_world TTS (initial_state ∅)).

(** The history after one synthesis was saved. *)
Definition one_tts_saved : state :=
  snd (save_audio_to_history Stub.good_world Stub.silence 4 "tts"
         (initial_state ∅)).

(** A reader of unsigned decimal numbers, for [int]. *)
Definition digit_value (ch : Ascii.ascii) : option Z :=
  let n := Z.of_nat (Ascii.nat_of_ascii ch) in
  if (48 <=? n) && (n <=? 57) then Some (n - 48) else None.

Fixpoint read_digits (s : string) (acc : Z) : option Z :=
  match s with
  | EmptyString => Some acc
  | String ch rest =>
      match digit_value ch with
      | Some d => read_digits rest (10 * acc + d)
      | None => None
      end
  end.

Definition read_decimal (s : string) : option Z :=
  match s with
  | EmptyString => None
  | _ => read_digits s 0
  end.


End Scenario.

(** * Properties *)

Import enhanced_gradio_app Process Spec.

(** ** Preset table *)

Lemma preset_names :
  preset_items.*1 =
  ["Neutral"; "Calm & Controlled"; "Expressive & Dynamic";
   "Dramatic & Intense"; "Robotic & Stable"; "Creative & Varied"].
Proof. reflexivity. Qed.

Lemma preset_names_NoDup : NoDup preset_items.*1.
Proof. rewrite preset_names. apply NoDup_ListNoDup. repeat constructor; simpl; intuition discriminate. Qed.

Lemma Custom_not_preset : get_preset_configs !! "Custom" = None.
Proof.
  apply not_elem_of_list_to_map_1. rewrite preset_names.
  rewrite !elem_of_cons, elem_of_nil. intuition discriminate.
Qed.

(** C4.  Every name of the preset table resolves to the three values the
    table gives it, which are the documented ones; "Custom" and every name
    outside the table resolve to (0.5, 0.5, 0.8); [apply_preset] is a
    total function, so there is no error path. *)
Theorem apply_preset_resolves :
  (∀ name cfg,
     get_preset_configs !! name = Some cfg →
     apply_preset name = (exaggeration cfg, cfg_weight cfg, temperature cfg))
  ∧ apply_preset "Neutral" = (0.5, 0.5, 0.8)%float
  ∧ apply_preset "Calm & Controlled" = (0.2, 0.7, 0.6)%float
  ∧ apply_preset "Expressive & Dynamic" = (0.8, 0.3, 0.9)%float
  ∧ apply_preset "Dramatic & Intense" = (1.2, 0.2, 1.0)%float
  ∧ apply_preset "Robotic & Stable" = (0.1, 0.8, 0.5)%float
  ∧ apply_preset "Creative & Varied" = (0.7, 0.4, 1.2)%float
  ∧ dom get_preset_configs =
      list_to_set ["Neutral"; "Calm & Controlled"; "Expressive & Dynamic";
                   "Dramatic & Intense"; "Robotic & Stable";
                   "Creative & Varied"]
  ∧ apply_preset "Custom" = (0.5, 0.5, 0.8)%float
  ∧ (∀ name, get_preset_configs !! name = None →
             apply_preset name = (0.5, 0.5, 0.8)%float).
Proof.
  split; [|do 6 (split; [reflexivity|]); split; [|split]].
  - intros name cfg Hin. unfold apply_preset.
    destruct (decide (name = "Custom")) as [->|_].
    + rewrite Custom_not_preset in Hin. discriminate.
    + simpl. rewrite Hin. reflexivity.
  - unfold get_preset_configs. rewrite dom_list_to_map_L, preset_names.
    reflexivity.
  - reflexivity.
  - intros name Hnone. unfold apply_preset.
    destruct (decide (name = "Custom")); [reflexivity|].
    simpl. rewrite Hnone. reflexivity.
Qed.

(** The table row "Robotic & Stable" and a name outside the table. *)
Lemma apply_preset_resolves_witness :
  apply_preset "Robotic & Stable" = (0.1, 0.8, 0.5)%float
  ∧ apply_preset "No such preset" = (0.5, 0.5, 0.8)%float.
Proof.
  destruct apply_preset_resolves as (Hin & _ & _ & _ & _ & _ & _ & _ & _ & Hout).
  split.
  - apply (Hin "Robotic & Stable" (Config 0.1 0.8 0.5)). reflexivity.
  - apply (Hout "No such preset"). reflexivity.
Defined.

(** ** Reasoning about statements *)

Lemma bind_run {A B} (c : M A) (k : A → M B) st :
  (c ≫= k) st =
  match c st with
  | (Returned a, st') => k a st'
  | (Raised e, st') => (Raised e, st')
  end.
Proof. reflexivity. Qed.

Lemma ret_run {A} (a : A) st : (mret a : M A) st = (Returned a, st).
Proof. reflexivity. Qed.

Lemma total_ret {A} (a : A) (Q : A → Prop) : Q a → total (mret a) Q.
Proof. intros HQ st. exists a, st. split; [reflexivity|exact HQ]. Qed.

Lemma total_bind {A B} (c : M A) (k : A → M B) (Q : B → Prop) :
  total c (λ _, True) → (∀ a, total (k a) Q) → total (c ≫= k) Q.
Proof.
  intros Hc Hk st. destruct (Hc st) as (a & st1 & Hrun & _).
  rewrite bind_run, Hrun. apply Hk.
Qed.

Lemma total_post {A} (c : M A) (Q : A → Prop) : total c Q → post c Q.
Proof.
  intros Hc st a st' Hrun. destruct (Hc st) as (a' & st1 & Hrun' & HQ).
  congruence.
Qed.

Lemma post_ret {A} (a : A) (Q : A → Prop) : Q a → post (mret a) Q.
Proof. intros HQ st a' st' Hrun. inversion Hrun. subst. exact HQ. Qed.

Lemma post_raise {A} (e : exn) (Q : A → Prop) : post (raise e) Q.
Proof. intros st a st' Hrun. discriminate. Qed.

Lemma post_bind {A B} (c : M A) (k : A → M B) (P : A → Prop) (Q : B → Prop) :
  post c P → (∀ a, P a → post (k a) Q) → post (c ≫= k) Q.
Proof.
  intros Hc Hk st b st' Hrun. rewrite bind_run in Hrun.
  destruct (c st) as [[a|e] st1] eqn:Hcst; [|discriminate].
  eapply Hk; [eapply Hc|]; eassumption.
Qed.

Lemma post_bind_any {A B} (c : M A) (k : A → M B) (Q : B → Prop) :
  (∀ a, post (k a) Q) → post (c ≫= k) Q.
Proof.
  intros Hk. apply post_bind with (P := λ _, True); [|auto].
  intros ? ? ? ?. exact I.
Qed.

Lemma post_weaken {A} (c : M A) (P Q : A → Prop) :
  post c P → (∀ a, P a → Q a) → post c Q.
Proof. intros Hc HPQ st a st' Hrun. eauto. Qed.

Lemma post_try_except {A} (body : M A) (handler : exn → M A) (Q : A → Prop) :
  post body Q → (∀ e, post (handler e) Q) → post (try_except body handler) Q.
Proof.
  intros Hbody Hh st a st' Hrun. unfold try_except in Hrun.
  destruct (body st) as [[a'|e] st1] eqn:Hb.
  - inversion Hrun; subst. eapply Hbody, Hb.
  - eapply Hh, Hrun.
Qed.

(** A handler that returns turns any body into a statement that returns. *)
Lemma total_try_except {A} (body : M A) (handler : exn → M A) (Q : A → Prop) :
  post body Q → (∀ e, total (handler e) Q) → total (try_except body handler) Q.
Proof.
  intros Hbody Hh st. unfold try_except.
  destruct (body st) as [[a|e] st1] eqn:Hrun.
  - exists a, st1. split; [reflexivity|]. eapply Hbody, Hrun.
  - apply Hh.
Qed.

(** ** Shapes of status messages *)

Lemma failure_not_success status : is_failure_status status → ¬ is_success_status status.
Proof.
  unfold is_failure_status, is_success_status. intros Hf Hs.
  destruct status as [|a [|b s]]; cbn [startswith] in *; try discriminate.
  - destruct (Ascii.eqb _ a); discriminate.
  - repeat match type of Hf with
           | (if Ascii.eqb ?x ?y then _ else _) = _ =>
               destruct (Ascii.eqb_spec x y) as [<-|]; [|discriminate]
           end.
    vm_compute in Hs. discriminate.
Qed.

Lemma load_model_total w k :
  total (load_model w k)
        (λ r, match r with
              | (Some _, status) => is_success_status status
              | (None, status) =>
                  status = not_installed_status
                  ∨ ∃ e, status = load_error_msg k e
              end).
Proof.
  unfold load_model. destruct (CHATTERBOX_AVAILABLE w); simpl.
  - apply total_try_except.
    + apply post_bind_any. intros [m|].
      * apply post_ret. destruct k; reflexivity.
      * apply post_bind_any. intros start.
        apply post_bind_any. intros m.
        apply post_bind_any. intros _.
        apply post_bind_any. intros stop.
        apply post_ret. destruct k; reflexivity.
    + intros e. apply total_ret. right. exists e. reflexivity.
  - apply total_ret. left. reflexivity.
Qed.



(** ** Relations between the state before and after a statement *)

Section Steps.
Context (R : relation state) `{!PreOrder R}.

Lemma steps_ret {A} (a : A) : steps R (mret a).
Proof. intros st. simpl. reflexivity. Qed.

Lemma steps_raise {A} (e : exn) : steps R (raise e : M A).
Proof. intros st. simpl. reflexivity. Qed.

Lemma steps_get {A} (f : state → A) : steps R (get f).
Proof. intros st. simpl. reflexivity. Qed.

Lemma steps_ask {A} (f : list event → A) : steps R (ask f).
Proof. intros st. simpl. reflexivity. Qed.

Lemma steps_modify (f : state → state) :
  (∀ st, R st (f st)) → steps R (modify f).
Proof. intros Hf st. apply Hf. Qed.

Lemma steps_call {A} ev (answer : list event → outcome A) :
  (∀ st, R st (record_call ev st)) → steps R (call ev answer).
Proof. intros Hev st. apply Hev. Qed.

Lemma steps_bind {A B} (c : M A) (k : A → M B) :
  steps R c → (∀ a, steps R (k a)) → steps R (c ≫= k).
Proof.
  intros Hc Hk st. rewrite bind_run. specialize (Hc st).
  destruct (c st) as [[a|e] st1]; simpl in *; [|exact Hc].
  etransitivity; [exact Hc|apply Hk].
Qed.

Lemma steps_try_except {A} (body : M A) (handler : exn → M A) :
  steps R body → (∀ e, steps R (handler e)) →
  steps R (try_except body handler).
Proof.
  intros Hb Hh st. unfold try_except. specialize (Hb st).
  destruct (body st) as [[a|e] st1]; simpl in *; [exact Hb|].
  etransitivity; [exact Hb|apply Hh].
Qed.

Lemma steps_for_each {A} (xs : list A) (body : A → M unit) :
  (∀ x, steps R (body x)) → steps R (for_each xs body).
Proof.
  intros Hb. induction xs as [|x xs IH]; simpl.
  - apply steps_ret.
  - apply steps_bind; [apply Hb|intros _; exact IH].
Qed.
End Steps.

(** One rule of the above, by the shape of the statement. *)
Ltac step :=
  first
    [ apply steps_ret; [apply _ ..]
    | apply steps_raise; [apply _ ..]
    | apply steps_get; [apply _ ..]
    | apply steps_ask; [apply _ ..]
    | apply steps_bind; [apply _ .. | | intros ?]
    | apply steps_try_except; [apply _ .. | | intros ?] ].

(** A library call or an assignment, given that the relation admits it. *)
Ltac step_with lem :=
  first [ apply steps_call | apply steps_modify ];
    [apply _ .. | intros; apply lem].

(** ** Model session holder *)

#[local] Instance keeps_consistent_preorder w : PreOrder (keeps_consistent w).
Proof. split; unfold keeps_consistent; [intros ?|intros ? ? ?]; auto. Qed.

#[local] Instance same_sessions_preorder : PreOrder same_sessions.
Proof.
  split; unfold same_sessions; [intros ?|intros ? ? ? H1 H2 k]; auto.
  rewrite H2. apply H1.
Qed.


Lemma same_sessions_record ev st : same_sessions st (record_call ev st).
Proof. intros []; reflexivity. Qed.

Lemma same_sessions_history d st : same_sessions st (set_history_dir d st).
Proof. intros []; reflexivity. Qed.

Lemma set_seed_sessions w seed : steps same_sessions (set_seed w seed).
Proof.
  unfold set_seed, seed_with, randint.
  step; [destruct (seed =? 0); [|step]|repeat step];
    step_with same_sessions_record.
Qed.

Lemma save_audio_sessions w audio rate prefix :
  steps same_sessions (save_audio_to_history w audio rate prefix).
Proof.
  unfold save_audio_to_history, torchaudio_save_file.
  repeat step.
  - step_with same_sessions_record.
  - destruct a1; [|step]. step_with same_sessions_history.
Qed.


Lemma unlink_sessions w name : steps same_sessions (unlink w name).
Proof.
  unfold unlink. repeat step.
  - step_with same_sessions_record.
  - step_with same_sessions_history.
Qed.

Lemma clear_sessions w : steps same_sessions (clear_audio_history w).
Proof.
  unfold clear_audio_history. repeat step.
  apply steps_for_each; [apply _|]. intros name. apply unlink_sessions.
Qed.

Lemma array_len_sessions a : steps same_sessions (array_len a).
Proof. unfold array_len. destruct (shape a); step. Qed.

Lemma int_truediv_sessions a b : steps same_sessions (int_truediv a b).
Proof. unfold int_truediv. destruct (b =? 0); step. Qed.

Lemma float_truediv_sessions a b : steps same_sessions (float_truediv a b).
Proof. unfold float_truediv. destruct (PrimFloat.eqb b 0); step. Qed.

(** The statements the two [try] blocks are made of. *)
Ltac step_body :=
  repeat first
    [ apply set_seed_sessions
    | apply save_audio_sessions
    | apply array_len_sessions
    | apply int_truediv_sessions
    | apply float_truediv_sessions
    | step
    | step_with same_sessions_record ].






(** What [load_model] does when the library is there and no session is
    loaded: one construction, whose outcome decides. *)
Lemma load_model_unloaded w k st :
  CHATTERBOX_AVAILABLE w = true → session k st = None →
  load_model w k st =
  let st1 := record_call (from_pretrained_call k (DEVICE w)) st in
  match from_pretrained w k (DEVICE w) (calls st) with
  | Returned m =>
      (Returned (Some m,
                 loaded_status w k
                   (PrimFloat.sub (time_time w (calls st1))
                                  (time_time w (calls st))) m),
       set_session k (Some m) st1)
  | Raised e => (Returned (None, load_error_msg k e), st1)
  end.
Proof.
  intros Hav Hnone. unfold load_model, try_except. rewrite Hav. simpl.
  rewrite bind_run. unfold get at 1. rewrite Hnone.
  rewrite bind_run. unfold ask at 1.
  rewrite bind_run. unfold call at 1.
  destruct (from_pretrained w k (DEVICE w) (calls st)) as [m|e]; [|reflexivity].
  destruct k; reflexivity.
Qed.



(** ** Seed resolution *)

Lemma randint_run w a b st :
  randint w a b st =
  (Returned (a + getrandbits w (calls st) mod (b - a + 1)),
   record_call (randint_call a b) st).
Proof. reflexivity. Qed.

Lemma randint_range w a b st r st' :
  a ≤ b → randint w a b st = (Returned r, st') → a ≤ r ≤ b.
Proof.
  intros Hab Hrun. rewrite randint_run in Hrun. inversion Hrun; subst.
  pose proof (Z.mod_pos_bound (getrandbits w (calls st)) (b - a + 1)).
  lia.
Qed.

(** After the resolution of a zero seed, [set_seed] is four seeding calls. *)
Lemma seeding_run w seed st :
  seeders_accept w seed →
  (_ ← seed_with w torch_manual_seed seed;
   _ ← seed_with w torch_cuda_manual_seed_all seed;
   _ ← seed_with w random_seed seed;
   _ ← seed_with w np_random_seed seed;
   mret seed) st = (Returned seed, seeded seed st).
Proof.
  intros Hacc. unfold seed_with, seeded.
  repeat (rewrite bind_run; unfold call at 1; rewrite Hacc).
  reflexivity.
Qed.

Lemma set_seed_nonzero_run w seed st :
  seed ≠ 0 → seeders_accept w seed →
  set_seed w seed st = (Returned seed, seeded seed st).
Proof.
  intros Hnz Hacc. unfold set_seed. rewrite bind_run.
  destruct (Z.eqb_spec seed 0) as [|_]; [contradiction|].
  rewrite ret_run. apply seeding_run, Hacc.
Qed.

Lemma set_seed_zero_run w st s :
  fst (randint w 1 1000000 st) = Returned s → seeders_accept w s →
  set_seed w 0 st =
  (Returned s, seeded s (record_call (randint_call 1 1000000) st)).
Proof.
  intros Hdraw Hacc. unfold set_seed. rewrite bind_run. simpl (0 =? 0).
  cbv iota. rewrite randint_run in *. simpl in Hdraw. inversion Hdraw as [Hs].
  rewrite Hs. apply seeding_run, Hacc.
Qed.

(** Whatever [set_seed] returns: the seed it was given when that is not
    zero, and otherwise a draw from 1..1000000. *)
Lemma set_seed_post w seed :
  post (set_seed w seed)
       (λ r, (seed ≠ 0 → r = seed) ∧ (seed = 0 → 1 ≤ r ≤ 1000000)).
Proof.
  unfold set_seed.
  apply post_bind
    with (P := λ r, (seed ≠ 0 → r = seed) ∧ (seed = 0 → 1 ≤ r ≤ 1000000)).
  - destruct (Z.eqb_spec seed 0) as [Hz|Hnz].
    + intros st r st' Hrun. split; [intros; contradiction|intros _].
      eapply randint_range; [|exact Hrun]. lia.
    + apply post_ret. split; [reflexivity|intros; contradiction].
  - intros r Hr. repeat (apply post_bind_any; intros _). apply post_ret, Hr.
Qed.

(** C6.  With seed 0, [set_seed] draws a fresh seed with
    [random.randint(1, 1000000)] and goes on with it; with any other seed
    it goes on with that seed unchanged.  So whenever it returns on a
    nonzero seed it returns that seed, whatever the state and the
    libraries, and it does return when the four seeding functions take
    the seed: two calls with the same nonzero seed resolve to the same
    effective seed. *)
Theorem seed_resolution w st seed :
  (seed = 0 →
   ∃ s, fst (randint w 1 1000000 st) = Returned s
        ∧ (seeders_accept w s → fst (set_seed w 0 st) = Returned s))
  ∧ (seed ≠ 0 →
     (∀ r st', set_seed w seed st = (Returned r, st') → r = seed)
     ∧ (seeders_accept w seed →
        fst (set_seed w seed st) = Returned seed
        ∧ ∀ w' st', seeders_accept w' seed →
                    fst (set_seed w' seed st') = fst (set_seed w seed st))).
Proof.
  split.
  - intros _. eexists. split; [rewrite randint_run; reflexivity|].
    intros Hacc. erewrite set_seed_zero_run; [reflexivity| |exact Hacc].
    rewrite randint_run. reflexivity.
  - intros Hnz. split.
    + intros r st' Hrun. exact (proj1 (set_seed_post w seed st r st' Hrun) Hnz).
    + intros Hacc. rewrite set_seed_nonzero_run by assumption.
      split; [reflexivity|].
      intros w' st' Hacc'. rewrite set_seed_nonzero_run by assumption.
      reflexivity.
Qed.

(** Seed 0 on a generator that draws 42, and seed 7. *)
Lemma seed_resolution_witness :
  fst (set_seed Stub.good_world 0 Stub.fresh) = Returned 42
  ∧ fst (set_seed Stub.good_world 7 Stub.fresh) = Returned 7.
Proof.
  split.
  - destruct (seed_resolution Stub.good_world Stub.fresh 0) as [Hzero _].
    destruct (Hzero eq_refl) as (s & Hdraw & Hset).
    assert (Hs : s = 42) by (vm_compute in Hdraw; congruence).
    subst s. apply Hset. intros f l. reflexivity.
  - destruct (seed_resolution Stub.good_world Stub.fresh 7) as [_ Hnz].
    refine (proj1 (proj2 (Hnz _) _)); [discriminate|]. intros f l. reflexivity.
Defined.

(** The success message of [generate_tts] reports the seed [set_seed]
    returned. *)
Lemma generate_tts_reports_seed w text ref e c t seed preset :
  post (generate_tts w text ref e c t seed preset)
       (λ r, is_Some (fst r) →
             ∃ actual_seed duration generation_time rtf path e' c' t',
               snd r = tts_status_msg w duration generation_time rtf
                                      actual_seed path e' c' t'
               ∧ (seed ≠ 0 → actual_seed = seed)
               ∧ (seed = 0 → 1 ≤ actual_seed ≤ 1000000)).
Proof.
  assert (Hnone : ∀ status Q, post (mret (None, status) : M (option (Z * tensor) * string))
                                   (λ r, is_Some (fst r) → Q r))
    by (intros; apply post_ret; intros [? ?]; discriminate).
  unfold generate_tts.
  destruct (negb (truthy text) || negb (truthy (strip text))); [apply Hnone|].
  destruct (len text >? MAX_TEXT_LENGTH); [apply Hnone|].
  apply post_bind_any. intros [[m|] status]; [|apply Hnone].
  apply post_try_except; [|intros ex; apply Hnone].
  destruct (effective_settings preset e c t) as [[e' c'] t'].
  eapply post_bind; [apply set_seed_post|]. intros actual_seed [Hnz Hz].
  repeat (apply post_bind_any; intros ?).
  apply post_ret. intros _. simpl. eauto 12.
Qed.

(** C10.  [set_seed] never returns 0: on seed 0 it returns a value of
    1..1000000, on another seed that seed.  Hence the seed in the status
    text of a generation that produced audio is not zero. *)
Theorem seed_never_zero w :
  (∀ seed,
     post (set_seed w seed) (λ r, r ≠ 0 ∧ (seed = 0 → 1 ≤ r ≤ 1000000)))
  ∧ (∀ text reference_audio exaggeration cfg_weight temperature seed preset,
       post (generate_tts w text reference_audio exaggeration cfg_weight
                          temperature seed preset)
            (λ r, is_Some (fst r) →
                  ∃ actual_seed duration generation_time rtf path e c t,
                    snd r = tts_status_msg w duration generation_time rtf
                                           actual_seed path e c t
                    ∧ actual_seed ≠ 0)).
Proof.
  split.
  - intros seed. eapply post_weaken; [apply set_seed_post|].
    intros r [Hnz Hz]. split; [|exact Hz].
    destruct (Z.eq_dec seed 0) as [Heq|Hne]; [specialize (Hz Heq); lia|].
    rewrite (Hnz Hne). exact Hne.
  - intros text ref e c t seed preset.
    eapply post_weaken; [apply generate_tts_reports_seed|].
    intros r Hr Hsome.
    destruct (Hr Hsome) as (s & d & g & rtf & path & e' & c' & t' & Hst & Hnz & Hz).
    exists s, d, g, rtf, path, e', c', t'. split; [exact Hst|].
    destruct (Z.eq_dec seed 0) as [Heq|Hne]; [specialize (Hz Heq); lia|].
    rewrite (Hnz Hne). exact Hne.
Qed.

(** A synthesis with seed 0 that produces audio. *)
Lemma seed_never_zero_witness :
  ∃ audio actual_seed duration generation_time rtf path e c t st',
    generate_tts Stub.good_world Stub.hello_world None 0.5 0.5 0.8 0
                 "Neutral" Stub.fresh
    = (Returned (Some audio,
                 tts_status_msg Stub.good_world duration generation_time rtf
                                actual_seed path e c t), st')
    ∧ actual_seed ≠ 0.
Proof.
  destruct (generate_tts Stub.good_world Stub.hello_world None 0.5 0.5 0.8 0
                         "Neutral" Stub.fresh)
    as [[[[audio|] status]|ex] st'] eqn:Hrun;
    try (vm_compute in Hrun; discriminate).
  destruct (proj2 (seed_never_zero Stub.good_world) _ _ _ _ _ _ _ _ _ _ Hrun)
    as (s & d & g & rtf & path & e & c & t & Hst & Hnz); [simpl; eauto|].
  simpl in Hst. subst status. exists audio, s, d, g, rtf, path, e, c, t, st'.
  split; [reflexivity|exact Hnz].
Defined.

(** ** The settings the model is invoked with *)

#[local] Instance calls_extend_preorder allowed : PreOrder (calls_extend allowed).
Proof.
  split.
  - intros st. exists []. split; [reflexivity|constructor].
  - intros st1 st2 st3 (n1 & H1 & F1) (n2 & H2 & F2).
    exists (n2 ++ n1)%list. split; [rewrite H2, H1, app_assoc; reflexivity|].
    apply Forall_app; split; assumption.
Qed.

Lemma calls_extend_new allowed st st' :
  calls_extend allowed st st' → Forall allowed (new_calls st st').
Proof.
  intros (new & Hnew & Hall). unfold new_calls. rewrite Hnew.
  rewrite length_app.
  replace (length new + length (calls st) - length (calls st))%nat
    with (length new) by lia.
  rewrite take_app_length. exact Hall.
Qed.

Lemma calls_extend_record (allowed : event → Prop) ev st :
  allowed ev → calls_extend allowed st (record_call ev st).
Proof. intros Hev. exists [ev]. split; [reflexivity|]. repeat constructor. exact Hev. Qed.

Lemma calls_extend_same allowed st st' : calls st' = calls st → calls_extend allowed st st'.
Proof. intros Heq. exists []. split; [exact Heq|constructor]. Qed.

Section Calls.
Context (allowed : event → Prop) (Hother : ∀ ev, not_tts_generate ev → allowed ev).

(** A call other than the model's, and an assignment. *)
Ltac step_other :=
  apply steps_call;
  [apply _ .. | intros ?; apply calls_extend_record, Hother; exact I].
Ltac step_assign :=
  apply steps_modify;
  [apply _ .. | intros ?; apply calls_extend_same; try reflexivity].

Lemma set_seed_calls w seed : steps (calls_extend allowed) (set_seed w seed).
Proof.
  unfold set_seed, seed_with, randint.
  step; [destruct (seed =? 0); [|step]|repeat step]; step_other.
Qed.

Lemma load_model_calls w k : steps (calls_extend allowed) (load_model w k).
Proof.
  unfold load_model. destruct (CHATTERBOX_AVAILABLE w); simpl; [|step].
  step; [|step]. step; [step|]. destruct a as [m|]; [step|].
  repeat step; [step_other|step_assign]. destruct k; reflexivity.
Qed.

Lemma save_audio_calls w audio rate prefix :
  steps (calls_extend allowed) (save_audio_to_history w audio rate prefix).
Proof.
  unfold save_audio_to_history, torchaudio_save_file. repeat step.
  - step_other.
  - destruct a1; [step_assign|step].
Qed.

Lemma array_len_calls a : steps (calls_extend allowed) (array_len a).
Proof. unfold array_len. destruct (shape a); step. Qed.

Lemma int_truediv_calls a b : steps (calls_extend allowed) (int_truediv a b).
Proof. unfold int_truediv. destruct (b =? 0); step. Qed.

Lemma float_truediv_calls a b : steps (calls_extend allowed) (float_truediv a b).
Proof. unfold float_truediv. destruct (PrimFloat.eqb b 0); step. Qed.

(** Every call [generate_tts] makes is allowed, once the call of the
    model with the text, the settings that come out of the preset block
    and the reference audio is. *)
Lemma generate_tts_calls w text ref e c t seed preset :
  (∀ m, allowed (tts_generate_call m text
                   (let '(e', c', t') := effective_settings preset e c t in
                    GenerationParams e' c' t' ref))) →
  steps (calls_extend allowed) (generate_tts w text ref e c t seed preset).
Proof.
  intros Hgen. unfold generate_tts.
  destruct (negb (truthy text) || negb (truthy (strip text))); [step|].
  destruct (len text >? MAX_TEXT_LENGTH); [step|].
  step; [apply load_model_calls|].
  destruct a as [[m|] status]; [|step].
  specialize (Hgen m).
  destruct (effective_settings preset e c t) as [[e' c'] t'].
  step; [|step].
  step; [apply set_seed_calls|].
  step; [step|].
  step; [apply steps_call; [apply _ ..|]; intros st;
         apply calls_extend_record, Hgen|].
  step; [step|].
  step; [step_other|].
  step; [apply save_audio_calls|].
  step; [apply array_len_calls|].
  step; [apply int_truediv_calls|].
  step; [apply float_truediv_calls|].
  step.
Qed.

End Calls.

(** What [generate_tts] goes on with: the table's values for a name of
    the table, the caller's values otherwise. *)
Lemma effective_settings_spec preset e c t :
  effective_settings preset e c t =
  match get_preset_configs !! preset with
  | Some config => (exaggeration config, cfg_weight config, temperature config)
  | None => (e, c, t)
  end.
Proof.
  unfold effective_settings. destruct (decide (preset ≠ "Custom")) as [|Heq].
  - reflexivity.
  - apply dec_stable in Heq. subst preset. rewrite Custom_not_preset.
    reflexivity.
Qed.

(** C2, amended.  Whenever [generate_tts] invokes the model, it does so on
    the request's text and reference audio, and with the preset table's
    three values when the preset name is in the table; for "Custom" and
    for any name that is not in the table, it passes the caller's three
    values unchanged. *)
Theorem preset_overrides_settings w st text ref e c t seed preset m txt p :
  tts_generate_call m txt p
    ∈ new_calls st (snd (generate_tts w text ref e c t seed preset st)) →
  txt = text
  ∧ gp_audio_prompt_path p = ref
  ∧ (∀ config, get_preset_configs !! preset = Some config →
       gp_exaggeration p = exaggeration config
       ∧ gp_cfg_weight p = cfg_weight config
       ∧ gp_temperature p = temperature config)
  ∧ (get_preset_configs !! preset = None →
       gp_exaggeration p = e ∧ gp_cfg_weight p = c ∧ gp_temperature p = t).
Proof.
  intros Hin.
  set (allowed := λ ev,
         match ev with
         | tts_generate_call _ txt' p' =>
             txt' = text
             ∧ p' = (let '(e', c', t') := effective_settings preset e c t in
                     GenerationParams e' c' t' ref)
         | _ => True
         end).
  assert (Hall : Forall allowed
            (new_calls st (snd (generate_tts w text ref e c t seed preset st)))).
  { apply calls_extend_new, generate_tts_calls.
    - intros [] Hev; try exact I. destruct Hev.
    - intros m'. split; reflexivity. }
  rewrite Forall_forall in Hall. destruct (Hall _ Hin) as [-> ->].
  rewrite effective_settings_spec.
  split; [reflexivity|].
  destruct (get_preset_configs !! preset) as [config|]; simpl.
  - split; [reflexivity|]. split; [|discriminate].
    intros config' [= <-]. auto.
  - split; [reflexivity|]. split; [discriminate|]. auto.
Qed.

(** The preset "Calm & Controlled" against caller values 1.5, 0.1, 1.9. *)
Lemma preset_overrides_settings_witness :
  tts_generate_call Stub.stub_model Stub.hello_world
                    (GenerationParams 0.2 0.7 0.6 (Some "ref.wav"))
    ∈ new_calls Stub.fresh
        (snd (generate_tts Stub.good_world Stub.hello_world (Some "ref.wav")
                           1.5 0.1 1.9 0 "Calm & Controlled" Stub.fresh))
  ∧ (gp_exaggeration (GenerationParams 0.2 0.7 0.6 (Some "ref.wav")) = 0.2
     ∧ gp_cfg_weight (GenerationParams 0.2 0.7 0.6 (Some "ref.wav")) = 0.7
     ∧ gp_temperature (GenerationParams 0.2 0.7 0.6 (Some "ref.wav")) = 0.6)%float.
Proof.
  assert (Hin : tts_generate_call Stub.stub_model Stub.hello_world
                    (GenerationParams 0.2 0.7 0.6 (Some "ref.wav"))
    ∈ new_calls Stub.fresh
        (snd (generate_tts Stub.good_world Stub.hello_world (Some "ref.wav")
                           1.5 0.1 1.9 0 "Calm & Controlled" Stub.fresh))).
  { vm_compute. do 2 apply list_elem_of_further. apply list_elem_of_here. }
  split; [exact Hin|].
  destruct (preset_overrides_settings _ _ _ _ _ _ _ _ _ _ _ _ Hin)
    as (_ & _ & Htable & _).
  apply (Htable (Config 0.2 0.7 0.6)). reflexivity.
Defined.

(** C2 as stated fails on a preset name that is neither "Custom" nor in
    the table: the model is invoked with the caller's 1.5, 0.1 and 1.9,
    which are no row of the table (no row has exaggeration 1.5) and are
    not what [apply_preset] gives for that name. *)
Lemma unknown_preset_keeps_caller_settings :
  String.eqb "Bogus" "Custom" = false
  ∧ new_calls Stub.fresh
      (snd (generate_tts Stub.good_world Stub.hello_world None
                         1.5 0.1 1.9 7 "Bogus" Stub.fresh))
    = [ save_call "audio_history/tts_20240101_000007.wav" Stub.silence 4;
        numpy_call (Tensor [4] (data Stub.silence));
        tts_generate_call Stub.stub_model Stub.hello_world
                          (GenerationParams 1.5 0.1 1.9 None);
        seed_call np_random_seed 7;
        seed_call random_seed 7;
        seed_call torch_cuda_manual_seed_all 7;
        seed_call torch_manual_seed 7;
        from_pretrained_call TTS "cpu" ]
  ∧ get_preset_configs !! "Bogus" = None
  ∧ forallb (λ item, negb (PrimFloat.eqb (exaggeration item.2) 1.5))
            preset_items = true
  ∧ apply_preset "Bogus" = (0.5, 0.5, 0.8)%float.
Proof. repeat split; vm_compute; reflexivity. Qed.

(** ** Text validation *)

Lemma lstrip_nil text : lstrip text = [] ↔ blank text.
Proof.
  unfold blank. induction text as [|ch text IH]; simpl.
  - split; [constructor|reflexivity].
  - destruct (isspace ch) eqn:Hch.
    + rewrite IH. split; [intros; constructor; assumption|].
      intros Hall. inversion Hall; assumption.
    + split; [discriminate|]. intros Hall. inversion Hall. congruence.
Qed.

Lemma lstrip_head text ch rest : lstrip text = ch :: rest → isspace ch = false.
Proof.
  induction text as [|ch' text IH]; simpl; [discriminate|].
  destruct (isspace ch') eqn:Hch; [exact IH|]. intros [= <- _]. exact Hch.
Qed.

(** [not text or not text.strip()] holds on the texts that are empty or
    white space only, and on no other. *)
Lemma strip_blank text :
  negb (truthy text) || negb (truthy (strip text)) = true ↔ blank text.
Proof.
  assert (Hstrip : strip text = [] ↔ blank text).
  { unfold strip, rstrip. split.
    - intros Hnil. apply (f_equal (@rev N)) in Hnil.
      rewrite rev_involutive in Hnil. simpl in Hnil.
      apply lstrip_nil in Hnil. unfold blank in Hnil.
      rewrite Forall_forall in Hnil.
      destruct (lstrip text) as [|ch rest] eqn:Hl; [apply lstrip_nil, Hl|].
      apply lstrip_head in Hl. specialize (Hnil ch).
      rewrite Hnil in Hl; [discriminate|].
      apply list_elem_of_In, in_rev. rewrite rev_involutive. left. reflexivity.
    - intros Hb. apply lstrip_nil in Hb. rewrite Hb. reflexivity. }
  split.
  - intros Hor. apply Hstrip. apply orb_prop in Hor as [Hor|Hor].
    + destruct text; [reflexivity|discriminate].
    + destruct (strip text); [reflexivity|discriminate].
  - intros Hb. apply Hstrip in Hb. rewrite Hb. apply orb_true_r.
Qed.

Lemma validation_failure_opens status :
  validation_failure status → opens_like_validation status = true.
Proof. intros [-> | ->]; reflexivity. Qed.

(** C5, amended.  [generate_tts] always returns, and the status it returns
    is one of the two validation messages exactly when the text is empty
    or white space only, or longer than [MAX_TEXT_LENGTH] characters.  In
    that case there is no audio and the process is left as it was: no
    session is loaded and no library is called.  A text of exactly
    [MAX_TEXT_LENGTH] characters that is not blank passes the validation;
    a text of one character more does not. *)
Theorem text_validation w st text ref e c t seed preset :
  ∃ res status st',
    generate_tts w text ref e c t seed preset st = (Returned (res, status), st')
    ∧ (validation_failure status ↔ blank text ∨ MAX_TEXT_LENGTH < len text)
    ∧ (validation_failure status → res = None ∧ st' = st)
    ∧ (len text = MAX_TEXT_LENGTH → ¬ blank text → ¬ validation_failure status)
    ∧ (len text = MAX_TEXT_LENGTH + 1 → validation_failure status).
Proof.
  unfold generate_tts.
  destruct (negb (truthy text) || negb (truthy (strip text))) eqn:Hblank.
  { apply strip_blank in Hblank. exists None, empty_text_status, st.
    unfold validation_failure. rewrite ret_run. intuition. }
  assert (Hnb : ¬ blank text)
    by (intros Hb; apply strip_blank in Hb; congruence).
  destruct (Z.gtb_spec (len text) MAX_TEXT_LENGTH) as [Hlong|Hshort].
  { exists None, text_too_long_status, st.
    unfold validation_failure. rewrite ret_run. intuition lia. }
  match goal with
  | |- ∃ res status st', ?rest st = _ ∧ _ =>
      assert (Hrest : total rest (λ r, opens_like_validation (snd r) = false))
  end.
  { clear st. intros st. rewrite bind_run.
    destruct (load_model_total w TTS st) as ([[m|] status] & st1 & Hrun & Hst);
      unfold load_tts_model; rewrite Hrun.
    - apply total_try_except.
      + destruct (effective_settings preset e c t) as [[e' c'] t'].
        repeat (apply post_bind_any; intros ?). apply post_ret. reflexivity.
      + intros ex. apply total_ret. reflexivity.
    - apply total_ret. destruct Hst as [->|[ex ->]]; reflexivity. }
  destruct (Hrest st) as ([res status] & st' & Hrun & Hopen). simpl in Hopen.
  exists res, status, st'. split; [exact Hrun|].
  assert (Hnv : ¬ validation_failure status)
    by (intros Hv; apply validation_failure_opens in Hv; congruence).
  repeat split; try tauto; try lia.
  intros [Hb|Hl]; [tauto|lia].
Qed.

(** Five hundred letters pass the validation. *)
Lemma text_validation_witness :
  ∃ res status st',
    generate_tts Stub.good_world (replicate 500 97%N) None 0.5 0.5 0.8 0
                 "Neutral" Stub.fresh
    = (Returned (res, status), st')
    ∧ ¬ validation_failure status.
Proof.
  destruct (text_validation Stub.good_world Stub.fresh (replicate 500 97%N)
              None 0.5 0.5 0.8 0 "Neutral")
    as (res & status & st' & Hrun & _ & _ & Hbound & _).
  exists res, status, st'. split; [exact Hrun|].
  apply Hbound; [reflexivity|]. intros Hb. inversion Hb. discriminate.
Defined.

(** C5 as stated fails where the model library is not installed: a text
    that is neither blank nor too long gets a failure status and no
    audio, and nothing is called. *)
Lemma valid_text_fails_without_model_call :
  generate_tts Stub.bare_world Stub.hello_world None 0.5 0.5 0.8 0 "Neutral"
               Stub.fresh
  = (Returned (None, not_installed_status), Stub.fresh)
  ∧ calls Stub.fresh = []
  ∧ strip Stub.hello_world = Stub.hello_world
  ∧ len Stub.hello_world = 11
  ∧ forallb isspace Stub.hello_world = false
  ∧ (len Stub.hello_world <=? MAX_TEXT_LENGTH) = true.
Proof. repeat split. Qed.

(** ** Audio history store *)

Lemma elem_of_glob_wav files name :
  name ∈ glob_wav files ↔ is_Some (files !! name) ∧ endswith ".wav" name = true.
Proof.
  unfold glob_wav. rewrite list_elem_of_filter, list_elem_of_fmap.
  rewrite Is_true_true. split.
  - intros [Hends ([name' f] & -> & Hin)]. apply elem_of_map_to_list in Hin.
    simpl. eauto.
  - intros [[f Hf] Hends]. split; [exact Hends|].
    exists (name, f). split; [reflexivity|]. apply elem_of_map_to_list, Hf.
Qed.

(** A loop of [unlink]s that comes to its end has removed the files it
    went over and no other. *)
Lemma for_each_unlink_returned w names :
  ∀ st st',
    for_each names (unlink w) st = (Returned tt, st') →
    match history_dir st with
    | None => history_dir st' = None
    | Some files =>
        ∃ files', history_dir st' = Some files'
                  ∧ ∀ n, files' !! n =
                         if decide (n ∈ names) then None else files !! n
    end.
Proof.
  induction names as [|x names IH]; intros st st' Hrun; simpl in Hrun.
  - inversion Hrun; subst. destruct (history_dir st') as [files|]; [|reflexivity].
    exists files. split; [reflexivity|]. intros n.
    destruct (decide (n ∈ [])) as [Hin|_]; [|reflexivity].
    apply elem_of_nil in Hin. destruct Hin.
  - rewrite bind_run in Hrun. unfold unlink at 1 in Hrun.
    rewrite bind_run in Hrun. unfold call at 1 in Hrun.
    destruct (os_unlink w (history_path x) (calls st)) as [[]|ex];
      [|discriminate].
    unfold modify at 1 in Hrun. apply IH in Hrun. simpl in Hrun.
    destruct (history_dir st) as [files|]; simpl in Hrun; [|exact Hrun].
    destruct Hrun as (files' & Hdir & Hlook). exists files'.
    split; [exact Hdir|]. intros n. rewrite Hlook.
    destruct (decide (n = x)) as [->|Hne].
    + rewrite lookup_delete_eq.
      destruct (decide (x ∈ names)); destruct (decide (x ∈ x :: names)) as [|Hn];
        try reflexivity; destruct Hn; apply list_elem_of_here.
    + rewrite lookup_delete_ne by congruence.
      destruct (decide (n ∈ names)) as [Hin|Hnin];
        destruct (decide (n ∈ x :: names)) as [Hin'|Hnin']; try reflexivity.
      * destruct Hnin'. apply list_elem_of_further, Hin.
      * apply elem_of_cons in Hin' as [?|?]; contradiction.
Qed.

(** C9.  From any state of the store and whatever the file system answers,
    when [clear_audio_history] reports success, [get_audio_history] run
    right after it returns the empty list. *)
Theorem clear_then_list_empty w st st' :
  clear_audio_history w st
  = (Returned "✅ Audio history cleared successfully", st') →
  get_audio_history st' = (Returned [], st').
Proof.
  unfold clear_audio_history, try_except. rewrite bind_run. unfold get at 1.
  rewrite bind_run.
  destruct (for_each _ (unlink w) st) as [[[]|ex] st1] eqn:Hloop;
    [|intros Hfail; simpl in Hfail; discriminate].
  rewrite ret_run. intros [= <-].
  apply for_each_unlink_returned in Hloop.
  unfold get_audio_history. rewrite bind_run. unfold get at 1.
  destruct (history_dir st) as [files|].
  - destruct Hloop as (files' & -> & Hlook).
    assert (Hempty : glob_wav files' = []).
    { destruct (glob_wav files') as [|n l] eqn:Hg; [reflexivity|].
      assert (Hin : n ∈ glob_wav files') by (rewrite Hg; apply list_elem_of_here).
      apply elem_of_glob_wav in Hin as [Hsome Hends].
      rewrite Hlook in Hsome.
      destruct (decide (n ∈ glob_wav files)) as [_|Hnin];
        [destruct Hsome; discriminate|].
      destruct Hnin. apply elem_of_glob_wav. split; assumption. }
    rewrite Hempty. reflexivity.
  - rewrite Hloop. reflexivity.
Qed.

(** Two files in the history, cleared. *)
Lemma clear_then_list_empty_witness :
  ∃ st',
    clear_audio_history Stub.good_world Stub.after_vc_then_tts
    = (Returned "✅ Audio history cleared successfully", st')
    ∧ fst (get_audio_history Stub.after_vc_then_tts)
      = Returned [ "audio_history/vc_20240101_000003.wav";
                   "audio_history/tts_20240101_000012.wav" ]
    ∧ get_audio_history st' = (Returned [], st').
Proof.
  destruct (clear_audio_history Stub.good_world Stub.after_vc_then_tts)
    as [[status|ex] st'] eqn:Hrun; [|vm_compute in Hrun; discriminate].
  assert (Hst : status = "✅ Audio history cleared successfully")
    by (apply (f_equal fst) in Hrun; vm_compute in Hrun; congruence).
  subst status. exists st'. split; [reflexivity|].
  split; [vm_compute; reflexivity|].
  apply (clear_then_list_empty Stub.good_world Stub.after_vc_then_tts).
  exact Hrun.
Defined.

#[local] Instance str_ge_total : Total str_ge.
Proof. intros a b. unfold str_ge. destruct (String.leb_total b a); auto. Qed.

(** The listing is in descending order of the path strings. *)
Lemma get_audio_history_descending st paths st' :
  get_audio_history st = (Returned paths, st') → Sorted str_ge paths.
Proof.
  unfold get_audio_history. rewrite bind_run. unfold get at 1.
  destruct (history_dir st) as [files|]; intros [= <- _].
  - apply Sorted_merge_sort, _.
  - constructor.
Qed.

(** The listing holds the paths of the directory's [*.wav] files, each
    once, and nothing else; it leaves the process as it is. *)
Lemma get_audio_history_complete st paths st' :
  get_audio_history st = (Returned paths, st') →
  st' = st
  ∧ paths ≡ₚ history_path <$>
             match history_dir st with
             | Some files => glob_wav files
             | None => []
             end.
Proof.
  unfold get_audio_history. rewrite bind_run. unfold get at 1.
  destruct (history_dir st) as [files|]; intros [= <- <-].
  - split; [reflexivity|]. apply merge_sort_Permutation.
  - split; reflexivity.
Qed.

(** C1, at the input where the claim fails.  A file is saved with the
    prefix "vc" and, one second later, a file with the prefix "tts".
    The listing puts the older "vc" file first and the newly saved "tts"
    file last: the sort is on the whole name, which begins with the
    prefix. *)
Theorem history_newest_not_first :
  fst Stub.saved_vc = Returned "audio_history/vc_20240101_000000.wav"
  ∧ fst Stub.saved_tts = Returned "audio_history/tts_20240101_000001.wav"
  ∧ fst (get_audio_history (snd Stub.saved_tts))
    = Returned [ "audio_history/vc_20240101_000000.wav";
                 "audio_history/tts_20240101_000001.wav" ].
Proof. repeat split; vm_compute; reflexivity. Qed.

(** ** The launcher *)

(** Whenever the launcher gets as far as launching, [GRADIO_SHARE] holds
    the flag and [launch] is called with [share=True] all the same. *)
Lemma launcher_share mc args environ environ' kwargs :
  run_gradio_app.main mc args environ = run_gradio_app.Launched environ' kwargs →
  environ' !! "GRADIO_SHARE"
  = Some (if run_gradio_app.no_share args then "False" else "True")
  ∧ share kwargs = true.
Proof.
  unfold run_gradio_app.main.
  destruct (_ && _); [discriminate|].
  destruct (truthy _); [discriminate|].
  destruct (negb (run_gradio_app.check_chatterbox mc)); [discriminate|].
  destruct (negb (run_gradio_app.app_file_exists mc)); [discriminate|].
  destruct (run_gradio_app.import_app mc); [discriminate|].
  intros [= <- <-]. split; [|reflexivity].
  destruct (run_gradio_app.no_share args); apply lookup_insert_eq.
Qed.

(** C3, at the input where the claim fails.  With [--no-share] on a
    machine where every check passes, the launcher sets [GRADIO_SHARE] to
    "False" and the application calls [launch] with [share=True]: the
    public URL is created. *)
Theorem no_share_flag_ignored :
  ∃ environ,
    run_gradio_app.main Stub.ready_machine
      (run_gradio_app.Args 7860 "0.0.0.0" true false false) ∅
    = run_gradio_app.Launched environ
        (LaunchKwargs "0.0.0.0" 7860 true true false true true 4)
    ∧ environ !! "GRADIO_SHARE" = Some "False".
Proof. eexists. split; [reflexivity|]. vm_compute. reflexivity. Qed.

(** * Further properties of the code *)

Import History Behaviour Launcher.

(** ** Order on strings *)

Lemma ascii_compare_refl a : Ascii.compare a a = Eq.
Proof. unfold Ascii.compare. apply N.compare_refl. Qed.

Lemma string_compare_refl s : String.compare s s = Eq.
Proof.
  induction s as [|a s IH]; simpl; [reflexivity|].
  rewrite ascii_compare_refl. exact IH.
Qed.

Lemma ascii_compare_lt_trans a b c :
  Ascii.compare a b = Lt → Ascii.compare b c = Lt → Ascii.compare a c = Lt.
Proof.
  unfold Ascii.compare. rewrite !N.compare_lt_iff. apply N.lt_trans.
Qed.

Lemma string_compare_lt_trans s1 :
  ∀ s2 s3, String.compare s1 s2 = Lt → String.compare s2 s3 = Lt →
           String.compare s1 s3 = Lt.
Proof.
  induction s1 as [|a s1 IH]; intros [|b s2] [|c s3]; simpl;
    try discriminate; try reflexivity.
  destruct (Ascii.compare a b) eqn:Hab; try discriminate.
  - apply Ascii.compare_eq_iff in Hab as ->.
    destruct (Ascii.compare b c); try discriminate; [apply IH|reflexivity].
  - intros _. destruct (Ascii.compare b c) eqn:Hbc; try discriminate.
    + apply Ascii.compare_eq_iff in Hbc as <-. rewrite Hab. reflexivity.
    + intros _. rewrite (ascii_compare_lt_trans a b c Hab Hbc). reflexivity.
Qed.

Lemma str_ge_compare a b : str_ge a b ↔ String.compare b a ≠ Gt.
Proof.
  unfold str_ge, String.leb. destruct (String.compare b a); split;
    congruence.
Qed.

#[local] Instance str_ge_transitive : Transitive str_ge.
Proof.
  intros a b c Hab Hbc. rewrite str_ge_compare in *.
  destruct (String.compare c b) eqn:Hcb; [| |congruence].
  - apply String.compare_eq_iff in Hcb as ->. exact Hab.
  - destruct (String.compare b a) eqn:Hba; [| |congruence].
    + apply String.compare_eq_iff in Hba as ->. rewrite Hcb. discriminate.
    + rewrite (string_compare_lt_trans c b a Hcb Hba). discriminate.
Qed.

#[local] Instance str_ge_antisymm : AntiSymm eq str_ge.
Proof. intros a b Hab Hba. apply String.leb_antisym; assumption. Qed.

(** Two strings that begin with pieces of one length compare by those
    pieces, and by what follows when the pieces are equal. *)
Lemma string_compare_app a1 :
  ∀ a2 b1 b2, String.length a1 = String.length a2 →
              String.compare (a1 ++ b1) (a2 ++ b2)
              = lex (String.compare a1 a2) (String.compare b1 b2).
Proof.
  induction a1 as [|x a1 IH]; intros [|y a2] b1 b2 Hlen; simpl in *;
    try discriminate; [reflexivity|].
  destruct (Ascii.compare x y); try reflexivity.
  apply IH. congruence.
Qed.

Lemma string_compare_prefix p a b :
  String.compare (p ++ a) (p ++ b) = String.compare a b.
Proof.
  rewrite string_compare_app by reflexivity.
  rewrite string_compare_refl. reflexivity.
Qed.

Lemma string_length_app a b :
  String.length (a ++ b) = (String.length a + String.length b)%nat.
Proof. induction a as [|x a IH]; simpl; [reflexivity|]. rewrite IH. reflexivity. Qed.

(** ** Time stamps *)

(** The N below [bound], for checks by enumeration. *)
Lemma below_enumerated (bound : N) (P : N → bool) :
  forallb P (N.of_nat <$> seq 0 (N.to_nat bound)) = true →
  ∀ n, (n < bound)%N → P n = true.
Proof.
  intros Hall n Hn. rewrite forallb_forall in Hall. apply Hall.
  apply list_elem_of_In, list_elem_of_fmap. exists (N.to_nat n).
  split; [rewrite N2Nat.id; reflexivity|].
  apply list_elem_of_In, in_seq. lia.
Qed.

Lemma two_digits_length n : (n < 100)%N → String.length (two_digits n) = 2%nat.
Proof.
  intros Hn.
  apply (below_enumerated 100
           (λ n, bool_decide (String.length (two_digits n) = 2%nat)))
    in Hn; [|vm_compute; reflexivity].
  apply bool_decide_eq_true in Hn. exact Hn.
Qed.

Lemma two_digits_compare n m :
  (n < 100)%N → (m < 100)%N →
  String.compare (two_digits n) (two_digits m) = (n ?= m)%N.
Proof.
  intros Hn Hm.
  apply (below_enumerated 100
           (λ n, forallb
                   (λ m, bool_decide
                           (String.compare (two_digits n) (two_digits m)
                            = (n ?= m)%N))
                   (N.of_nat <$> seq 0 (N.to_nat 100))))
    in Hn; [|vm_compute; reflexivity].
  apply (below_enumerated 100 _ Hn) in Hm.
  apply bool_decide_eq_true in Hm. exact Hm.
Qed.

(** A year of at most four digits prints as its hundreds and its rest. *)
Lemma four_digits_split n :
  (n < 10000)%N →
  four_digits n = two_digits (n / 100) ++ two_digits (n mod 100).
Proof.
  intros Hn.
  apply (below_enumerated 10000
           (λ n, bool_decide
                   (four_digits n
                    = two_digits (n / 100) ++ two_digits (n mod 100))))
    in Hn; [|vm_compute; reflexivity].
  apply bool_decide_eq_true in Hn. exact Hn.
Qed.

Lemma four_digits_length n : (n < 10000)%N → String.length (four_digits n) = 4%nat.
Proof.
  intros Hn. rewrite four_digits_split by assumption.
  assert (n / 100 < 100)%N by (apply N.Div0.div_lt_upper_bound; lia).
  assert (n mod 100 < 100)%N by (apply N.mod_lt; lia).
  rewrite string_length_app, !two_digits_length by assumption. reflexivity.
Qed.

Lemma four_digits_compare n m :
  (n < 10000)%N → (m < 10000)%N →
  String.compare (four_digits n) (four_digits m) = (n ?= m)%N.
Proof.
  intros Hn Hm. rewrite !four_digits_split by assumption.
  assert (n / 100 < 100)%N by (apply N.Div0.div_lt_upper_bound; lia).
  assert (m / 100 < 100)%N by (apply N.Div0.div_lt_upper_bound; lia).
  assert (n mod 100 < 100)%N by (apply N.mod_lt; lia).
  assert (m mod 100 < 100)%N by (apply N.mod_lt; lia).
  rewrite string_compare_app by (rewrite !two_digits_length; auto).
  rewrite !two_digits_compare by assumption.
  pose proof (N.div_mod n 100 ltac:(lia)) as En.
  pose proof (N.div_mod m 100 ltac:(lia)) as Em.
  unfold lex.
  set (a := (n / 100)%N) in *. set (b := (n mod 100)%N) in *.
  set (c := (m / 100)%N) in *. set (d := (m mod 100)%N) in *.
  clearbody a b c d.
  destruct (N.compare_spec a c) as [Heq|Hlt|Hgt].
  - destruct (N.compare_spec b d);
      symmetry; [apply N.compare_eq_iff|apply N.compare_lt_iff
                |apply N.compare_gt_iff]; lia.
  - symmetry. apply N.compare_lt_iff. lia.
  - symmetry. apply N.compare_gt_iff. lia.
Qed.

Lemma strftime_length d : well_formed d → String.length (strftime d) = 15%nat.
Proof.
  intros (Hy & Hmo & Hd & Hh & Hmi & Hs). unfold strftime.
  change (String.length
            (four_digits (year d) ++ two_digits (month d)
             ++ two_digits (day d) ++ "_" ++ two_digits (hour d)
             ++ two_digits (minute d) ++ two_digits (second d)) = 15%nat).
  rewrite !string_length_app, four_digits_length, !two_digits_length
    by assumption.
  reflexivity.
Qed.

(** The order of the time stamps as strings is the order of the moments
    they stand for. *)
Lemma strftime_compare d1 d2 :
  well_formed d1 → well_formed d2 →
  String.compare (strftime d1) (strftime d2) = datetime_compare d1 d2.
Proof.
  intros (Hy1 & Hmo1 & Hd1 & Hh1 & Hmi1 & Hs1)
         (Hy2 & Hmo2 & Hd2 & Hh2 & Hmi2 & Hs2).
  unfold strftime, datetime_compare.
  change (String.compare
            (four_digits (year d1) ++ two_digits (month d1)
             ++ two_digits (day d1) ++ "_" ++ two_digits (hour d1)
             ++ two_digits (minute d1) ++ two_digits (second d1))
            (four_digits (year d2) ++ two_digits (month d2)
             ++ two_digits (day d2) ++ "_" ++ two_digits (hour d2)
             ++ two_digits (minute d2) ++ two_digits (second d2))
          = lex (year d1 ?= year d2)%N
              (lex (month d1 ?= month d2)%N
                 (lex (day d1 ?= day d2)%N
                    (lex (hour d1 ?= hour d2)%N
                       (lex (minute d1 ?= minute d2)%N
                            (second d1 ?= second d2)%N))))).
  rewrite string_compare_app by (rewrite !four_digits_length; auto).
  rewrite four_digits_compare by assumption. f_equal.
  rewrite string_compare_app by (rewrite !two_digits_length; auto).
  rewrite two_digits_compare by assumption. f_equal.
  rewrite string_compare_app by (rewrite !two_digits_length; auto).
  rewrite two_digits_compare by assumption. f_equal.
  rewrite (string_compare_app "_" "_") by reflexivity. simpl (lex _ _).
  rewrite string_compare_app by (rewrite !two_digits_length; auto).
  rewrite two_digits_compare by assumption. f_equal.
  rewrite string_compare_app by (rewrite !two_digits_length; auto).
  rewrite two_digits_compare by assumption. f_equal.
  apply two_digits_compare; assumption.
Qed.

(** ** The listing of the history *)

Lemma startswith_app p s : startswith p (p ++ s) = true.
Proof.
  induction p as [|a p IH]; simpl; [reflexivity|].
  rewrite Ascii.eqb_refl. exact IH.
Qed.

Lemma string_app_cons x a b : String x a ++ b = String x (a ++ b).
Proof. reflexivity. Qed.

Lemma string_app_assoc a b c : (a ++ b) ++ c = a ++ (b ++ c).
Proof.
  induction a as [|x a IH]; [reflexivity|].
  rewrite !string_app_cons, IH. reflexivity.
Qed.

Lemma string_app_nil_r a : a ++ EmptyString = a.
Proof.
  induction a as [|x a IH]; [reflexivity|].
  rewrite string_app_cons, IH. reflexivity.
Qed.

Lemma string_rev_app_app a :
  ∀ b acc, String.rev_app (a ++ b) acc = String.rev_app b (String.rev_app a acc).
Proof.
  induction a as [|x a IH]; intros b acc; [reflexivity|].
  rewrite string_app_cons. simpl. apply IH.
Qed.

Lemma string_rev_app_acc s :
  ∀ acc, String.rev_app s acc = String.rev s ++ acc.
Proof.
  induction s as [|x s IH]; intros acc; [reflexivity|].
  unfold String.rev. simpl. rewrite (IH (String x acc)), (IH (String x EmptyString)).
  rewrite string_app_assoc. reflexivity.
Qed.

Lemma string_rev_app a b : String.rev (a ++ b) = String.rev b ++ String.rev a.
Proof.
  unfold String.rev at 1. rewrite string_rev_app_app.
  apply string_rev_app_acc.
Qed.

Lemma endswith_app p s : endswith p (s ++ p) = true.
Proof. unfold endswith. rewrite string_rev_app. apply startswith_app. Qed.

Lemma history_filename_wav prefix d :
  endswith ".wav" (history_filename prefix d) = true.
Proof.
  unfold history_filename.
  rewrite <- !string_app_assoc. apply endswith_app.
Qed.

Lemma history_path_inj : Inj eq eq history_path.
Proof.
  intros a b Heq. unfold history_path in Heq.
  apply String.app_inj, String.app_inj in Heq. exact Heq.
Qed.

Lemma glob_wav_NoDup files : NoDup (glob_wav files).
Proof. unfold glob_wav. apply NoDup_filter, NoDup_fst_map_to_list. Qed.

(** X1: the listing is the one descending arrangement of the paths of the
    directory's [*.wav] entries: every such entry once, nothing else, each
    path at least as large as all that follow; and listing changes
    nothing. *)
Theorem history_listing st paths st' :
  get_audio_history st = (Returned paths, st') →
  st' = st
  ∧ StronglySorted str_ge paths
  ∧ NoDup paths
  ∧ (∀ path, path ∈ paths ↔
             ∃ files name, history_dir st = Some files
                           ∧ is_Some (files !! name)
                           ∧ endswith ".wav" name = true
                           ∧ path = history_path name)
  ∧ (∀ other, StronglySorted str_ge other → other ≡ₚ paths → other = paths).
Proof.
  unfold get_audio_history. rewrite bind_run. unfold get at 1.
  destruct (history_dir st) as [files|]; intros [= <- <-].
  - split; [reflexivity|].
    assert (Hperm : sorted_reverse (history_path <$> glob_wav files)
                    ≡ₚ history_path <$> glob_wav files)
      by apply merge_sort_Permutation.
    assert (Hsorted : StronglySorted str_ge
                        (sorted_reverse (history_path <$> glob_wav files)))
      by (apply StronglySorted_merge_sort; apply _).
    split; [exact Hsorted|]. split; [|split].
    + rewrite Hperm. apply NoDup_fmap; [apply history_path_inj|].
      apply glob_wav_NoDup.
    + intros path. rewrite Hperm, list_elem_of_fmap. split.
      * intros (name & -> & Hin). apply elem_of_glob_wav in Hin as [Hs He].
        exists files, name. auto.
      * intros (files' & name & [= <-] & Hs & He & ->). exists name.
        split; [reflexivity|]. apply elem_of_glob_wav. auto.
    + intros other Hother Hp.
      apply (Sorted_unique str_ge); try apply _;
        [apply StronglySorted_Sorted; exact Hother
        |apply StronglySorted_Sorted; exact Hsorted|exact Hp].
  - split; [reflexivity|]. split; [constructor|]. split; [constructor|].
    split.
    + intros path. split; [intros Hin; inversion Hin|].
      intros (files' & name & Hdir & _). discriminate.
    + intros other _ Hp. apply Permutation_nil_r in Hp. exact Hp.
Qed.

(** ** Saving to the history *)

(** The tensor [save_audio_to_history] hands to [torchaudio.save]: a
    one-axis array gets a leading axis of size 1. *)
Lemma save_audio_run w audio rate prefix st :
  save_audio_to_history w audio rate prefix st =
  let filename := history_filename prefix (datetime_now w (calls st)) in
  let audio_tensor := if dim audio =? 1 then unsqueeze0 audio else audio in
  let st1 :=
    record_call (save_call (history_path filename) audio_tensor rate) st in
  match torchaudio_save w (history_path filename) audio_tensor rate (calls st),
        history_dir st with
  | Returned _, Some files =>
      (Returned (history_path filename),
       set_history_dir
         (Some (<[filename := WavFile audio_tensor rate]> files)) st1)
  | Returned _, None =>
      (Raised (Exn "RuntimeError" "No such file or directory"), st1)
  | Raised e, _ => (Raised e, st1)
  end.
Proof.
  unfold save_audio_to_history, torchaudio_save_file, history_filename.
  rewrite bind_run. unfold ask at 1. rewrite !bind_run. unfold call at 1.
  destruct (torchaudio_save w _ _ rate (calls st)) as [[]|e];
    [|destruct (history_dir st); reflexivity].
  rewrite !bind_run. unfold get at 1. cbn [history_dir record_call].
  destruct (history_dir st); reflexivity.
Qed.

(** X2: a save that returns has put the file where it says: the path
    returned is [audio_history/<prefix>_<time stamp>.wav], the directory
    holds under that name the audio (with two axes) and the sample rate,
    every other file is as before, and the path is in the listing. *)
Theorem save_then_lookup w audio rate prefix st path st' :
  save_audio_to_history w audio rate prefix st = (Returned path, st') →
  let filename := history_filename prefix (datetime_now w (calls st)) in
  path = history_path filename
  ∧ ∃ files files',
      history_dir st = Some files
      ∧ history_dir st' = Some files'
      ∧ files' !! filename
        = Some (WavFile (if dim audio =? 1 then unsqueeze0 audio else audio)
                        rate)
      ∧ (∀ other, other ≠ filename → files' !! other = files !! other)
      ∧ ∃ listing, get_audio_history st' = (Returned listing, st')
                   ∧ path ∈ listing.
Proof.
  rewrite save_audio_run. cbv zeta.
  destruct (torchaudio_save w _ _ rate (calls st)) as [[]|e];
    [|discriminate].
  destruct (history_dir st) as [files|] eqn:Hdir; [|discriminate].
  intros [= <- <-]. split; [reflexivity|].
  eexists files, _. split; [reflexivity|]. split; [reflexivity|].
  split; [apply lookup_insert_eq|].
  split; [intros other Hne; apply lookup_insert_ne; congruence|].
  unfold get_audio_history. rewrite bind_run. unfold get at 1.
  cbn [history_dir set_history_dir]. eexists. split; [reflexivity|].
  unfold sorted_reverse. rewrite merge_sort_Permutation.
  apply list_elem_of_fmap. eexists. split; [reflexivity|].
  apply elem_of_glob_wav. split; [|apply history_filename_wav].
  rewrite lookup_insert_eq. eauto.
Qed.


Lemma get_audio_history_run st :
  get_audio_history st =
  (Returned match history_dir st with
            | Some files => sorted_reverse (history_path <$> glob_wav files)
            | None => []
            end, st).
Proof.
  unfold get_audio_history. rewrite bind_run. unfold get at 1.
  destruct (history_dir st); reflexivity.
Qed.

(** The listings of two sets of names that are the same are the same. *)
Lemma sorted_reverse_ext l1 l2 :
  NoDup l1 → NoDup l2 → (∀ x, x ∈ l1 ↔ x ∈ l2) →
  sorted_reverse l1 = sorted_reverse l2.
Proof.
  intros Hd1 Hd2 Hiff. apply (Sorted_unique str_ge); try apply _.
  - apply Sorted_merge_sort, _.
  - apply Sorted_merge_sort, _.
  - unfold sorted_reverse. rewrite !merge_sort_Permutation.
    apply NoDup_Permutation; assumption.
Qed.

(** A member that is at least as large as every member heads the
    descending arrangement. *)
Lemma sorted_reverse_head l x :
  x ∈ l → (∀ y, y ∈ l → str_ge x y) → ∃ rest, sorted_reverse l = x :: rest.
Proof.
  intros Hin Hmax.
  assert (Hperm : sorted_reverse l ≡ₚ l) by apply merge_sort_Permutation.
  assert (Hsorted : StronglySorted str_ge (sorted_reverse l))
    by (apply StronglySorted_merge_sort; apply _).
  destruct (sorted_reverse l) as [|h rest].
  - rewrite <- Hperm in Hin. inversion Hin.
  - exists rest. f_equal. apply StronglySorted_inv in Hsorted as [_ Hall].
    apply (anti_symm str_ge).
    + rewrite <- Hperm in Hin. apply elem_of_cons in Hin as [->|Hin].
      * unfold str_ge, String.leb. rewrite string_compare_refl. reflexivity.
      * rewrite Forall_forall in Hall. apply Hall, Hin.
    + apply Hmax. rewrite <- Hperm. apply list_elem_of_here.
Qed.

Lemma history_filename_compare prefix d1 d2 :
  well_formed d1 → well_formed d2 →
  String.compare (history_path (history_filename prefix d1))
                 (history_path (history_filename prefix d2))
  = datetime_compare d1 d2.
Proof.
  intros H1 H2. unfold history_path, history_filename.
  rewrite !string_compare_prefix.
  rewrite string_compare_app by (rewrite !strftime_length; auto).
  rewrite strftime_compare by assumption.
  destruct (datetime_compare d1 d2); reflexivity.
Qed.

(** X4: the file names sort as the clock runs.  The time stamps of two
    moments compare as strings the way the moments compare, and so do the
    paths of two files saved under one prefix at those moments. *)
Theorem strftime_chronological prefix d1 d2 :
  well_formed d1 → well_formed d2 →
  String.compare (strftime d1) (strftime d2) = datetime_compare d1 d2
  ∧ String.compare (history_path (history_filename prefix d1))
                   (history_path (history_filename prefix d2))
    = datetime_compare d1 d2.
Proof.
  intros H1 H2.
  split; [apply strftime_compare|apply history_filename_compare]; assumption.
Qed.

(** X5: among files of one prefix the listing is most recent first.  When
    every [*.wav] file of the directory was saved under the prefix at an
    earlier second than now, a save under that prefix puts its file at
    the head of the listing. *)
Theorem newest_first_within_prefix w audio rate prefix st path st' :
  well_formed (datetime_now w (calls st)) →
  (∀ files name,
     history_dir st = Some files → name ∈ glob_wav files →
     ∃ d, well_formed d ∧ name = history_filename prefix d
          ∧ datetime_compare d (datetime_now w (calls st)) = Lt) →
  save_audio_to_history w audio rate prefix st = (Returned path, st') →
  ∃ rest, get_audio_history st' = (Returned (path :: rest), st').
Proof.
  intros Hwf Hold. rewrite save_audio_run. cbv zeta.
  destruct (torchaudio_save w _ _ rate (calls st)) as [[]|e]; [|discriminate].
  destruct (history_dir st) as [files|] eqn:Hdir; [|discriminate].
  intros [= <- <-]. rewrite get_audio_history_run.
  cbn [history_dir set_history_dir].
  set (now := datetime_now w (calls st)) in *.
  set (files' := <[history_filename prefix now := _]> files).
  destruct (sorted_reverse_head (history_path <$> glob_wav files')
              (history_path (history_filename prefix now)))
    as [rest Hrest].
  - apply list_elem_of_fmap. eexists. split; [reflexivity|].
    apply elem_of_glob_wav. split; [|apply history_filename_wav].
    unfold files'. rewrite lookup_insert_eq. eauto.
  - intros y Hy. apply list_elem_of_fmap in Hy as (name & -> & Hname).
    apply str_ge_compare.
    destruct (decide (name = history_filename prefix now)) as [->|Hne].
    + rewrite string_compare_refl. discriminate.
    + apply elem_of_glob_wav in Hname as [Hsome Hends].
      unfold files' in Hsome. rewrite lookup_insert_ne in Hsome by congruence.
      destruct (Hold files name eq_refl) as (d & Hd & -> & Hlt);
        [apply elem_of_glob_wav; auto|].
      rewrite history_filename_compare, Hlt by assumption. discriminate.
  - exists rest. rewrite Hrest. reflexivity.
Qed.

(** X6: two saves under one prefix within one second collide: the second
    returns the path of the first and replaces its file, and the listing
    is the one after the first save. *)
Theorem same_second_overwrites w audio1 rate1 audio2 rate2 prefix
    st path1 st1 path2 st2 :
  save_audio_to_history w audio1 rate1 prefix st = (Returned path1, st1) →
  save_audio_to_history w audio2 rate2 prefix st1 = (Returned path2, st2) →
  datetime_now w (calls st1) = datetime_now w (calls st) →
  path2 = path1
  ∧ fst (get_audio_history st2) = fst (get_audio_history st1)
  ∧ ∃ files files2,
      history_dir st = Some files
      ∧ history_dir st2 = Some files2
      ∧ files2
        = <[history_filename prefix (datetime_now w (calls st)) :=
              WavFile (if dim audio2 =? 1 then unsqueeze0 audio2 else audio2)
                      rate2]> files.
Proof.
  rewrite !save_audio_run. cbv zeta.
  destruct (torchaudio_save w _ _ rate1 (calls st)) as [[]|e]; [|discriminate].
  destruct (history_dir st) as [files|] eqn:Hdir; [|discriminate].
  intros [= <- <-].
  cbn [history_dir set_history_dir calls record_call].
  destruct (torchaudio_save w _ _ rate2 _) as [[]|e]; [|discriminate].
  intros [= <- <-] Hsame. cbn [calls record_call] in Hsame.
  rewrite Hsame. split; [reflexivity|].
  rewrite !get_audio_history_run. cbn [history_dir set_history_dir fst].
  rewrite insert_insert_eq. split.
  - f_equal. apply sorted_reverse_ext.
    + apply NoDup_fmap; [apply history_path_inj|apply glob_wav_NoDup].
    + apply NoDup_fmap; [apply history_path_inj|apply glob_wav_NoDup].
    + intros x. rewrite !list_elem_of_fmap.
      split; intros (name & -> & Hin); exists name; (split; [reflexivity|]);
        apply elem_of_glob_wav in Hin as [Hs He]; apply elem_of_glob_wav;
        (split; [|exact He]);
        (destruct (decide (name = history_filename prefix
                                    (datetime_now w (calls st)))) as [->|Hne];
         [rewrite lookup_insert_eq; eauto
         |rewrite lookup_insert_ne in * by congruence; exact Hs]).
  - eexists files, _. split; [reflexivity|]. split; reflexivity.
Qed.

(** ** Clearing the history *)

Lemma unlink_run w name st :
  unlink w name st =
  match os_unlink w (history_path name) (calls st) with
  | Returned _ =>
      (Returned tt,
       set_history_dir (delete name <$> history_dir st)
         (record_call (unlink_call (history_path name)) st))
  | Raised e => (Raised e, record_call (unlink_call (history_path name)) st)
  end.
Proof.
  unfold unlink. rewrite bind_run. unfold call at 1.
  destruct (os_unlink w (history_path name) (calls st)) as [[]|e]; reflexivity.
Qed.

(** However a loop of [unlink]s ends, each file is as before or is one the
    loop went over and is gone. *)
Lemma for_each_unlink_any w names :
  ∀ st,
    match history_dir st with
    | None => history_dir (snd (for_each names (unlink w) st)) = None
    | Some files =>
        ∃ files',
          history_dir (snd (for_each names (unlink w) st)) = Some files'
          ∧ ∀ n, files' !! n = files !! n ∨ (n ∈ names ∧ files' !! n = None)
    end.
Proof.
  induction names as [|x names IH]; intros st.
  - simpl. destruct (history_dir st) as [files|]; [|reflexivity].
    exists files. auto.
  - cbn [for_each]. rewrite bind_run, unlink_run.
    destruct (os_unlink w (history_path x) (calls st)) as [[]|e].
    + specialize (IH (set_history_dir (delete x <$> history_dir st)
                        (record_call (unlink_call (history_path x)) st))).
      cbn [history_dir set_history_dir] in IH.
      destruct (history_dir st) as [files|]; [|exact IH].
      destruct IH as (files' & Hdir & Hlook). exists files'.
      split; [exact Hdir|]. intros n.
      destruct (Hlook n) as [Heq|[Hin Hnone]].
      * destruct (decide (n = x)) as [->|Hne].
        -- right. split; [apply list_elem_of_here|].
           rewrite Heq. apply lookup_delete_eq.
        -- left. rewrite Heq. apply lookup_delete_ne. congruence.
      * right. split; [apply list_elem_of_further, Hin|exact Hnone].
    + cbn [snd history_dir record_call].
      destruct (history_dir st) as [files|]; [|reflexivity].
      exists files. auto.
Qed.

(** X7: [clear_audio_history] never raises; it reports success or the one
    failure it caught; and whatever happens it removes nothing but
    [*.wav] entries: every other file of the directory stays as it is. *)
Theorem clear_removes_only_wav w st :
  ∃ status st',
    clear_audio_history w st = (Returned status, st')
    ∧ (status = "✅ Audio history cleared successfully"
       ∨ ∃ e, status = "❌ Failed to clear history: " ++ str_exn e)
    ∧ match history_dir st with
      | None => history_dir st' = None
      | Some files =>
          ∃ files',
            history_dir st' = Some files'
            ∧ ∀ name, files' !! name = files !! name
                      ∨ (files' !! name = None
                         ∧ is_Some (files !! name)
                         ∧ endswith ".wav" name = true)
      end.
Proof.
  unfold clear_audio_history, try_except. rewrite bind_run. unfold get at 1.
  rewrite bind_run.
  pose proof (for_each_unlink_any w
                match history_dir st with
                | Some files => glob_wav files
                | None => []
                end st) as Hloop.
  destruct (for_each _ (unlink w) st) as [[[]|e] st1] eqn:Hrun;
    rewrite ret_run; eexists _, st1; (split; [reflexivity|]);
    (split; [eauto|]); cbn [snd] in Hloop;
    (destruct (history_dir st) as [files|]; [|exact Hloop]);
    destruct Hloop as (files' & Hdir & Hlook); exists files';
    (split; [exact Hdir|]); intros name;
    (destruct (Hlook name) as [Heq|[Hin Hnone]]; [left; exact Heq|right]);
    apply elem_of_glob_wav in Hin as [Hsome Hends]; auto.
Qed.

Lemma for_each_unlink_total w names :
  (∀ path l, os_unlink w path l = Returned tt) →
  ∀ st, ∃ st', for_each names (unlink w) st = (Returned tt, st').
Proof.
  intros Hok. induction names as [|x names IH]; intros st.
  - exists st. reflexivity.
  - cbn [for_each]. rewrite bind_run, unlink_run, Hok. apply IH.
Qed.

(** X8: when the file system lets every delete through,
    [clear_audio_history] reports success and the directory is left with
    exactly its entries that are not [*.wav]. *)
Theorem clear_succeeds_when_deletes_do w st :
  (∀ path l, os_unlink w path l = Returned tt) →
  ∃ st',
    clear_audio_history w st
    = (Returned "✅ Audio history cleared successfully", st')
    ∧ match history_dir st with
      | None => history_dir st' = None
      | Some files =>
          ∃ files',
            history_dir st' = Some files'
            ∧ ∀ name, files' !! name
                      = if endswith ".wav" name then None else files !! name
      end.
Proof.
  intros Hok. unfold clear_audio_history, try_except.
  rewrite bind_run. unfold get at 1. rewrite bind_run.
  destruct (for_each_unlink_total w
              match history_dir st with
              | Some files => glob_wav files
              | None => []
              end Hok st) as [st' Hrun].
  rewrite Hrun, ret_run. exists st'. split; [reflexivity|].
  apply for_each_unlink_returned in Hrun.
  destruct (history_dir st) as [files|]; [|exact Hrun].
  destruct Hrun as (files' & Hdir & Hlook). exists files'.
  split; [exact Hdir|]. intros name. rewrite Hlook.
  destruct (decide (name ∈ glob_wav files)) as [Hin|Hnin].
  - apply elem_of_glob_wav in Hin as [_ ->]. reflexivity.
  - destruct (endswith ".wav" name) eqn:Hends; [|reflexivity].
    destruct (files !! name) as [f|] eqn:Hf; [|reflexivity].
    destruct Hnin. apply elem_of_glob_wav. rewrite Hf. eauto.
Qed.



(** ** Sessions over the life of the process *)

#[local] Instance keeps_loaded_preorder : PreOrder keeps_loaded.
Proof. split; unfold keeps_loaded; [intros ?|intros ? ? ? H1 H2]; auto. Qed.

Lemma same_sessions_keeps_loaded st st' :
  same_sessions st st' → keeps_loaded st st'.
Proof. intros Hs k m. rewrite Hs. auto. Qed.

Lemma steps_same_sessions_keeps_loaded {A} (c : M A) :
  steps same_sessions c → steps keeps_loaded c.
Proof. intros Hc st. apply same_sessions_keeps_loaded, Hc. Qed.

Lemma session_set_other k k' m st :
  k ≠ k' → session k (set_session k' m st) = session k st.
Proof. destruct k, k'; try contradiction; reflexivity. Qed.

Lemma session_record k ev st : session k (record_call ev st) = session k st.
Proof. destruct k; reflexivity. Qed.

Lemma load_model_keeps_loaded w k : steps keeps_loaded (load_model w k).
Proof.
  intros st k' m Hm.
  destruct (CHATTERBOX_AVAILABLE w) eqn:Hav;
    [|unfold load_model; rewrite Hav; exact Hm].
  destruct (session k st) as [m'|] eqn:Hk.
  - unfold load_model, try_except. rewrite Hav. simpl.
    rewrite bind_run. unfold get. rewrite Hk. exact Hm.
  - rewrite load_model_unloaded by assumption. cbv zeta.
    destruct (from_pretrained w k (DEVICE w) (calls st)); cbn [snd].
    + rewrite session_set_other, session_record; [exact Hm|].
      intros ->. congruence.
    + rewrite session_record. exact Hm.
Qed.

Lemma perform_keeps_loaded w op st : keeps_loaded st (perform w st op).
Proof.
  destruct op as [k|text ref e c t seed preset|input_audio target| |];
    cbn [perform].
  - apply load_model_keeps_loaded.
  - revert st. change (steps keeps_loaded
      (generate_tts w text ref e c t seed preset)).
    unfold generate_tts.
    destruct (negb (truthy text) || negb (truthy (strip text))); [step|].
    destruct (len text >? MAX_TEXT_LENGTH); [step|].
    step; [apply load_model_keeps_loaded|].
    destruct a as [[m|] status]; [|step].
    apply steps_same_sessions_keeps_loaded.
    destruct (effective_settings _ _ _ _) as [[e' c'] t']. step_body.
  - revert st. change (steps keeps_loaded
      (generate_vc w input_audio target)).
    unfold generate_vc. destruct input_audio as [input|]; [|step].
    step; [apply load_model_keeps_loaded|].
    destruct a as [[m|] status]; [|step].
    apply steps_same_sessions_keeps_loaded. step_body.
  - rewrite get_audio_history_run. reflexivity.
  - apply same_sessions_keeps_loaded, clear_sessions.
Qed.

(** X10: a loaded session is never unloaded or replaced.  Whatever the
    interface asks of the process afterwards, and however the libraries
    answer, the session of that kind stays the model that was loaded. *)
Theorem loaded_is_terminal w ops k m st :
  session k st = Some m →
  session k (foldl (perform w) st ops) = Some m.
Proof.
  revert st. induction ops as [|op ops IH]; intros st Hm; [exact Hm|].
  simpl. apply IH. exact (perform_keeps_loaded w op st k m Hm).
Qed.

(** X11: without the model library the loaders and the handlers do nothing:
    they return no model or no audio with a failure status, the status of
    the loaders being the installation hint, and leave the process as it
    was, no library being called. *)
Theorem without_library_nothing_happens w :
  CHATTERBOX_AVAILABLE w = false →
  (∀ k st, load_model w k st = (Returned (None, not_installed_status), st))
  ∧ (∀ text reference_audio exaggeration cfg_weight temperature seed preset
       st,
       ∃ status,
         generate_tts w text reference_audio exaggeration cfg_weight
                      temperature seed preset st
         = (Returned (None, status), st)
         ∧ (validation_failure status ∨ status = not_installed_status))
  ∧ (∀ input_audio target_voice_audio st,
       ∃ status,
         generate_vc w input_audio target_voice_audio st
         = (Returned (None, status), st)
         ∧ (status = missing_input_status ∨ status = not_installed_status)).
Proof.
  intros Hav.
  assert (Hload : ∀ k st,
            load_model w k st = (Returned (None, not_installed_status), st))
    by (intros k st; unfold load_model; rewrite Hav; reflexivity).
  split; [exact Hload|]. split.
  - intros text ref e c t seed preset st. unfold generate_tts.
    destruct (negb (truthy text) || negb (truthy (strip text)));
      [eexists; split; [reflexivity|left; left; reflexivity]|].
    destruct (len text >? MAX_TEXT_LENGTH);
      [eexists; split; [reflexivity|left; right; reflexivity]|].
    rewrite bind_run. unfold load_tts_model. rewrite Hload.
    eexists; split; [reflexivity|right; reflexivity].
  - intros [input|] target st; unfold generate_vc;
      [|eexists; split; [reflexivity|left; reflexivity]].
    rewrite bind_run. unfold load_vc_model. rewrite Hload.
    eexists; split; [reflexivity|right; reflexivity].
Qed.

(** X12: when the construction of the model raises, the handler hands the
    loader's troubleshooting message on as it is, with no audio; of the
    libraries only the constructor has been called, so nothing is
    generated, seeded or saved. *)
Theorem construction_failure_reported w st e :
  CHATTERBOX_AVAILABLE w = true →
  (∀ text reference_audio exaggeration cfg_weight temperature seed preset,
     ¬ blank text → len text ≤ MAX_TEXT_LENGTH →
     session TTS st = None →
     from_pretrained w TTS (DEVICE w) (calls st) = Raised e →
     generate_tts w text reference_audio exaggeration cfg_weight
                  temperature seed preset st
     = (Returned (None, load_error_msg TTS e),
        record_call (from_pretrained_call TTS (DEVICE w)) st))
  ∧ (∀ input_audio target_voice_audio,
       session VC st = None →
       from_pretrained w VC (DEVICE w) (calls st) = Raised e →
       generate_vc w (Some input_audio) target_voice_audio st
       = (Returned (None, load_error_msg VC e),
          record_call (from_pretrained_call VC (DEVICE w)) st)).
Proof.
  intros Hav. split.
  - intros text ref ex c t seed preset Hnb Hlen Hnone Hraise.
    unfold generate_tts.
    destruct (negb (truthy text) || negb (truthy (strip text))) eqn:Hb;
      [apply strip_blank in Hb; contradiction|].
    destruct (Z.gtb_spec (len text) MAX_TEXT_LENGTH); [lia|].
    rewrite bind_run. unfold load_tts_model.
    rewrite load_model_unloaded by assumption. cbv zeta. rewrite Hraise.
    reflexivity.
  - intros input target Hnone Hraise. unfold generate_vc.
    rewrite bind_run. unfold load_vc_model.
    rewrite load_model_unloaded by assumption. cbv zeta. rewrite Hraise.
    reflexivity.
Qed.

(** ** What the handlers call *)

Lemma saved_under_history_filename prefix d :
  saved_under prefix (history_filename prefix d) = true.
Proof.
  unfold saved_under. rewrite history_filename_wav, andb_true_r.
  unfold history_filename. rewrite <- string_app_assoc. apply startswith_app.
Qed.

Section Footprint.
Context (allowed : event → Prop).

Ltac step_call H :=
  apply steps_call; [apply _ .. | intros ?; apply calls_extend_record, H].
Ltac step_keep :=
  apply steps_modify;
  [apply _ .. | intros ?; apply calls_extend_same; try reflexivity].

Lemma load_model_footprint w k :
  (∀ dev, allowed (from_pretrained_call k dev)) →
  steps (calls_extend allowed) (load_model w k).
Proof.
  intros Hload. unfold load_model.
  destruct (CHATTERBOX_AVAILABLE w); simpl; [|step].
  step; [|step]. step; [step|]. destruct a as [m|]; [step|].
  repeat step; [step_call Hload|step_keep]. destruct k; reflexivity.
Qed.

Lemma save_audio_footprint w audio rate prefix :
  (∀ d a r, allowed (save_call (history_path (history_filename prefix d)) a r)) →
  steps (calls_extend allowed) (save_audio_to_history w audio rate prefix).
Proof.
  intros Hsave st. rewrite save_audio_run. cbv zeta.
  destruct (torchaudio_save w _ _ rate (calls st)) as [[]|e];
    [destruct (history_dir st)|]; cbn [snd];
    apply (calls_extend_record allowed), Hsave.
Qed.

Lemma set_seed_footprint w seed :
  allowed (randint_call 1 1000000) → (∀ f s, allowed (seed_call f s)) →
  steps (calls_extend allowed) (set_seed w seed).
Proof.
  intros Hrand Hseed. unfold set_seed, seed_with, randint.
  step; [destruct (seed =? 0); [step_call Hrand|step]|repeat step];
    step_call Hseed.
Qed.

Lemma arithmetic_footprint :
  (∀ a, steps (calls_extend allowed) (array_len a))
  ∧ (∀ a b, steps (calls_extend allowed) (int_truediv a b))
  ∧ (∀ a b, steps (calls_extend allowed) (float_truediv a b)).
Proof.
  split; [|split].
  - intros a. unfold array_len. destruct (shape a); step.
  - intros a b. unfold int_truediv. destruct (b =? 0); step.
  - intros a b. unfold float_truediv. destruct (PrimFloat.eqb b 0); step.
Qed.

End Footprint.

(** X13: what the two handlers ask of the libraries.  A synthesis calls
    nothing but the TTS constructor, the random generators, the TTS model
    on the request's text and reference audio, the conversion to numpy and
    the saving of a [tts_*.wav] file; a conversion calls nothing but the VC
    constructor, the VC model on the request's input and target (absent
    when none was given), the conversion to numpy and the saving of a
    [vc_*.wav] file.  Neither deletes a file, a conversion never reseeds,
    and without input audio a conversion is refused with nothing called. *)
Theorem handlers_footprint w st :
  (∀ text reference_audio exaggeration cfg_weight temperature seed preset,
     Forall (tts_footprint text reference_audio)
            (new_calls st
               (snd (generate_tts w text reference_audio exaggeration
                                  cfg_weight temperature seed preset st))))
  ∧ (∀ input_audio target_voice_audio,
       Forall (vc_footprint input_audio target_voice_audio)
              (new_calls st
                 (snd (generate_vc w (Some input_audio) target_voice_audio
                                   st))))
  ∧ (∀ target_voice_audio,
       generate_vc w None target_voice_audio st
       = (Returned (None, missing_input_status), st)).
Proof.
  split; [|split].
  - intros text ref e c t seed preset. apply calls_extend_new. revert st.
    change (steps (calls_extend (tts_footprint text ref))
                  (generate_tts w text ref e c t seed preset)).
    destruct (arithmetic_footprint (tts_footprint text ref))
      as (Hlen & Hint & Hfloat).
    unfold generate_tts.
    destruct (negb (truthy text) || negb (truthy (strip text))); [step|].
    destruct (len text >? MAX_TEXT_LENGTH); [step|].
    step; [apply load_model_footprint; reflexivity|].
    destruct a as [[m|] status]; [|step].
    destruct (effective_settings preset e c t) as [[e' c'] t'].
    step; [|step].
    step; [apply set_seed_footprint; [split; reflexivity|intros; exact I]|].
    step; [step|].
    step; [apply steps_call; [apply _ ..|]; intros st;
           apply calls_extend_record; split; reflexivity|].
    step; [step|].
    step; [apply steps_call; [apply _ ..|]; intros st;
           apply calls_extend_record; exact I|].
    step; [apply save_audio_footprint; intros ? ? ?; eexists;
           split; [reflexivity|apply saved_under_history_filename]|].
    step; [apply Hlen|]. step; [apply Hint|]. step; [apply Hfloat|]. step.
  - intros input target. apply calls_extend_new. revert st.
    change (steps (calls_extend (vc_footprint input target))
                  (generate_vc w (Some input) target)).
    destruct (arithmetic_footprint (vc_footprint input target))
      as (Hlen & Hint & Hfloat).
    unfold generate_vc.
    step; [apply load_model_footprint; reflexivity|].
    destruct a as [[m|] status]; [|step].
    step; [|step].
    step; [step|].
    step; [apply steps_call; [apply _ ..|]; intros st;
           apply calls_extend_record; split; reflexivity|].
    step; [step|].
    step; [apply steps_call; [apply _ ..|]; intros st;
           apply calls_extend_record; exact I|].
    step; [apply save_audio_footprint; intros ? ? ?; eexists;
           split; [reflexivity|apply saved_under_history_filename]|].
    step; [apply Hlen|]. step; [apply Hint|]. step.
  - intros target. reflexivity.
Qed.

(** ** Seeding *)

(** X14: when [set_seed] returns, the four generators (torch, torch.cuda,
    random, numpy, in that order) have been seeded, all with the seed it
    returns; before that it has drawn once from [random] if the seed given
    was 0, and it has called nothing else. *)
Theorem set_seed_seeds_all w seed st r st' :
  set_seed w seed st = (Returned r, st') →
  calls st'
  = ([ seed_call np_random_seed r;
       seed_call random_seed r;
       seed_call torch_cuda_manual_seed_all r;
       seed_call torch_manual_seed r ]
     ++ (if seed =? 0 then [randint_call 1 1000000] else [])
     ++ calls st)%list.
Proof.
  unfold set_seed. rewrite bind_run.
  destruct (seed =? 0); [rewrite randint_run|rewrite ret_run];
    unfold seed_with;
    repeat (rewrite bind_run; unfold call at 1;
            match goal with
            | |- context [seed_rng w ?f ?s ?l] =>
                destruct (seed_rng w f s l) as [[]|]; [|discriminate]
            end);
    rewrite ret_run; intros [= <- <-]; reflexivity.
Qed.

(** ** Presets and sliders *)

(** X15: the preset dropdown and the generation agree.  [apply_preset]
    shows on the sliders the values a generation with that preset and
    those sliders uses; and for a preset of the table the generation uses
    the values [apply_preset] shows whatever the sliders hold. *)
Theorem sliders_follow_preset preset :
  effective_settings preset (apply_preset preset).1.1
                     (apply_preset preset).1.2 (apply_preset preset).2
  = apply_preset preset
  ∧ (∀ exaggeration cfg_weight temperature,
       is_Some (get_preset_configs !! preset) →
       effective_settings preset exaggeration cfg_weight temperature
       = apply_preset preset).
Proof.
  split.
  - rewrite effective_settings_spec. unfold apply_preset.
    destruct (decide (preset = "Custom")) as [->|_].
    + rewrite Custom_not_preset. reflexivity.
    + simpl. destruct (get_preset_configs !! preset); reflexivity.
  - intros e c t [config Hconfig]. rewrite effective_settings_spec.
    unfold apply_preset. destruct (decide (preset = "Custom")) as [->|_].
    + rewrite Custom_not_preset in Hconfig. discriminate.
    + simpl. rewrite Hconfig. reflexivity.
Qed.

(** ** What the handlers do to the directory *)

#[local] Instance touches_only_preorder mine : PreOrder (touches_only mine).
Proof.
  split.
  - intros st. unfold touches_only. destruct (history_dir st); auto.
  - intros st1 st2 st3. unfold touches_only.
    destruct (history_dir st1), (history_dir st2), (history_dir st3);
      try tauto.
    intros H12 H23 name Hname. rewrite H23, H12 by assumption. reflexivity.
Qed.

#[local] Instance keeps_files_preorder : PreOrder keeps_files.
Proof.
  split.
  - intros st. unfold keeps_files. destruct (history_dir st); auto.
  - intros st1 st2 st3. unfold keeps_files.
    destruct (history_dir st1), (history_dir st2), (history_dir st3);
      try tauto.
    intros H12 H23 name Hname. auto.
Qed.

Section Directory.
Context (R : relation state) `{!PreOrder R}.
Context (Hsame : ∀ st st', history_dir st' = history_dir st → R st st').

Ltac step_same :=
  first [ apply steps_call | apply steps_modify ];
  [apply _ .. | intros ?; apply Hsame; try reflexivity].

Lemma load_model_directory w k : steps R (load_model w k).
Proof.
  unfold load_model. destruct (CHATTERBOX_AVAILABLE w); simpl; [|step].
  step; [|step]. step; [step|]. destruct a as [m|]; [step|].
  repeat step; step_same. destruct k; reflexivity.
Qed.

Lemma set_seed_directory w seed : steps R (set_seed w seed).
Proof.
  unfold set_seed, seed_with, randint.
  step; [destruct (seed =? 0); [|step]|repeat step]; step_same.
Qed.

Lemma generate_tts_directory w text ref e c t seed preset :
  (∀ audio rate, steps R (save_audio_to_history w audio rate "tts")) →
  steps R (generate_tts w text ref e c t seed preset).
Proof.
  intros Hsave. unfold generate_tts.
  destruct (negb (truthy text) || negb (truthy (strip text))); [step|].
  destruct (len text >? MAX_TEXT_LENGTH); [step|].
  step; [apply load_model_directory|].
  destruct a as [[m|] status]; [|step].
  destruct (effective_settings preset e c t) as [[e' c'] t'].
  step; [|step]. step; [apply set_seed_directory|].
  step; [step|]. step; [step_same|]. step; [step|]. step; [step_same|].
  step; [apply Hsave|].
  step; [unfold array_len; destruct (shape _); step|].
  step; [unfold int_truediv; destruct (_ =? 0); step|].
  step; [unfold float_truediv; destruct (PrimFloat.eqb _ _); step|].
  step.
Qed.

Lemma generate_vc_directory w input target :
  (∀ audio rate, steps R (save_audio_to_history w audio rate "vc")) →
  steps R (generate_vc w input target).
Proof.
  intros Hsave. unfold generate_vc. destruct input as [input|]; [|step].
  step; [apply load_model_directory|].
  destruct a as [[m|] status]; [|step].
  step; [|step].
  step; [step|]. step; [step_same|]. step; [step|]. step; [step_same|].
  step; [apply Hsave|].
  step; [unfold array_len; destruct (shape _); step|].
  step; [unfold int_truediv; destruct (_ =? 0); step|].
  step.
Qed.

End Directory.

Lemma save_audio_touches w audio rate prefix :
  steps (touches_only (saved_under prefix))
        (save_audio_to_history w audio rate prefix).
Proof.
  intros st. rewrite save_audio_run. cbv zeta. unfold touches_only.
  destruct (torchaudio_save w _ _ rate (calls st)) as [[]|e];
    destruct (history_dir st) as [files|] eqn:Hdir;
    cbn [snd history_dir set_history_dir record_call];
    rewrite ?Hdir; auto.
  intros name Hname. apply lookup_insert_ne. intros <-.
  rewrite saved_under_history_filename in Hname. discriminate.
Qed.

Lemma save_audio_keeps_files w audio rate prefix :
  steps keeps_files (save_audio_to_history w audio rate prefix).
Proof.
  intros st. rewrite save_audio_run. cbv zeta. unfold keeps_files.
  destruct (torchaudio_save w _ _ rate (calls st)) as [[]|e];
    destruct (history_dir st) as [files|] eqn:Hdir;
    cbn [snd history_dir set_history_dir record_call];
    rewrite ?Hdir; auto.
  intros name Hname.
  destruct (decide (name = history_filename prefix
                              (datetime_now w (calls st)))) as [->|Hne].
  - rewrite lookup_insert_eq. eauto.
  - rewrite lookup_insert_ne by congruence. exact Hname.
Qed.

Lemma touches_only_same mine st st' :
  history_dir st' = history_dir st → touches_only mine st st'.
Proof.
  intros Heq. unfold touches_only. rewrite Heq.
  destruct (history_dir st); auto.
Qed.

Lemma keeps_files_same st st' :
  history_dir st' = history_dir st → keeps_files st st'.
Proof.
  intros Heq. unfold keeps_files. rewrite Heq.
  destruct (history_dir st); auto.
Qed.

(** X16: the handlers only ever add to the history, each under its own
    prefix.  Whatever happens in a synthesis, no file of the directory
    goes away and every file that is not a [tts_*.wav] is left as it is;
    likewise a conversion with [vc_*.wav]; and neither creates or removes
    the directory.  So a synthesis never overwrites the output of a
    conversion, nor the other way round. *)
Theorem handlers_keep_other_files w st :
  (∀ text reference_audio exaggeration cfg_weight temperature seed preset,
     touches_only (saved_under "tts") st
       (snd (generate_tts w text reference_audio exaggeration cfg_weight
                          temperature seed preset st))
     ∧ keeps_files st
         (snd (generate_tts w text reference_audio exaggeration cfg_weight
                            temperature seed preset st)))
  ∧ (∀ input_audio target_voice_audio,
       touches_only (saved_under "vc") st
         (snd (generate_vc w input_audio target_voice_audio st))
       ∧ keeps_files st
           (snd (generate_vc w input_audio target_voice_audio st))).
Proof.
  split.
  - intros text ref e c t seed preset. split.
    + apply (generate_tts_directory (touches_only (saved_under "tts")));
        [apply touches_only_same|intros; apply save_audio_touches].
    + apply (generate_tts_directory keeps_files);
        [apply keeps_files_same|intros; apply save_audio_keeps_files].
  - intros input target. split.
    + apply (generate_vc_directory (touches_only (saved_under "vc")));
        [apply touches_only_same|intros; apply save_audio_touches].
    + apply (generate_vc_directory keeps_files);
        [apply keeps_files_same|intros; apply save_audio_keeps_files].
Qed.

(** ** A success is a file in the history *)

Lemma triple_ret {A} (P : state → Prop) (a : A) (Q : A → state → Prop) :
  (∀ st, P st → Q a st) → triple P (mret a) Q.
Proof. intros HQ st a' st' HP [= <- <-]. auto. Qed.

Lemma triple_bind {A B} (P : state → Prop) (c : M A) (R : A → state → Prop)
    (k : A → M B) (Q : B → state → Prop) :
  triple P c R → (∀ a, triple (R a) (k a) Q) → triple P (c ≫= k) Q.
Proof.
  intros Hc Hk st b st' HP Hrun. rewrite bind_run in Hrun.
  destruct (c st) as [[a|e] st1] eqn:Hcst; [|discriminate].
  eapply Hk; [eapply Hc; eassumption|exact Hrun].
Qed.

Lemma triple_any {A} (P : state → Prop) (c : M A) :
  triple P c (λ _ _, True).
Proof. intros st a st' _ _. exact I. Qed.

Lemma triple_static {A} (P : state → Prop) (c : M A) :
  (∀ st, snd (c st) = st) → triple P c (λ _, P).
Proof.
  intros Hc st a st' HP Hrun. specialize (Hc st). rewrite Hrun in Hc.
  simpl in Hc. subst st'. exact HP.
Qed.

Lemma triple_try_except {A} (P : state → Prop) (body : M A)
    (handler : exn → M A) (Q : A → state → Prop) :
  triple P body Q → (∀ e, triple (λ _, True) (handler e) Q) →
  triple P (try_except body handler) Q.
Proof.
  intros Hb Hh st a st' HP Hrun. unfold try_except in Hrun.
  destruct (body st) as [[a'|e] st1] eqn:Hbody.
  - inversion Hrun; subst. eapply Hb; eassumption.
  - eapply Hh; [exact I|exact Hrun].
Qed.

Lemma arithmetic_static :
  (∀ a st, snd (array_len a st) = st)
  ∧ (∀ a b st, snd (int_truediv a b st) = st)
  ∧ (∀ a b st, snd (float_truediv a b st) = st).
Proof.
  split; [|split].
  - intros a st. unfold array_len. destruct (shape a); reflexivity.
  - intros a b st. unfold int_truediv. destruct (b =? 0); reflexivity.
  - intros a b st. unfold float_truediv.
    destruct (PrimFloat.eqb b 0); reflexivity.
Qed.

Lemma save_audio_triple w audio rate prefix :
  triple (λ _, True) (save_audio_to_history w audio rate prefix)
         (saved_as prefix audio rate).
Proof.
  intros st path st' _. rewrite save_audio_run. cbv zeta.
  destruct (torchaudio_save w _ _ rate (calls st)) as [[]|e]; [|discriminate].
  destruct (history_dir st) as [files|]; [|discriminate].
  intros [= <- <-]. eexists _, _. split; [reflexivity|].
  split; [apply saved_under_history_filename|].
  split; [reflexivity|]. apply lookup_insert_eq.
Qed.

(** X17: a synthesis that returns audio has saved it.  The directory then
    holds, under a [tts_*.wav] name, the returned audio (with a leading
    axis added when it has one axis) at the returned sample rate, and the
    status text names that file's path. *)
Theorem tts_success_is_saved w text reference_audio exaggeration cfg_weight
    temperature seed preset st rate audio status st' :
  generate_tts w text reference_audio exaggeration cfg_weight temperature
               seed preset st
  = (Returned (Some (rate, audio), status), st') →
  ∃ path,
    saved_as "tts" audio rate path st'
    ∧ ∃ duration generation_time rtf actual_seed e c t,
        status = tts_status_msg w duration generation_time rtf actual_seed
                                path e c t.
Proof.
  intros Hrun.
  enough (Ht : triple (λ _, True)
            (generate_tts w text reference_audio exaggeration cfg_weight
                          temperature seed preset)
            (λ r st',
               match r with
               | (Some (rate, audio), status) =>
                   ∃ path,
                     saved_as "tts" audio rate path st'
                     ∧ ∃ duration generation_time rtf actual_seed e c t,
                         status = tts_status_msg w duration generation_time
                                    rtf actual_seed path e c t
               | (None, _) => True
               end))
    by exact (Ht st _ st' I Hrun).
  clear. destruct arithmetic_static as (Hlen & Hint & Hfloat).
  unfold generate_tts.
  destruct (negb (truthy text) || negb (truthy (strip text)));
    [apply triple_ret; auto|].
  destruct (len text >? MAX_TEXT_LENGTH); [apply triple_ret; auto|].
  eapply triple_bind; [apply triple_any|]. intros [[m|] status0];
    [|apply triple_ret; auto].
  apply triple_try_except; [|intros ex; apply triple_ret; auto].
  destruct (effective_settings _ _ _ _) as [[e' c'] t'].
  do 5 (eapply triple_bind; [apply triple_any|]; intros ?).
  eapply triple_bind; [apply save_audio_triple|]. intros path.
  eapply triple_bind; [apply triple_static, Hlen|]. intros n.
  eapply triple_bind; [apply triple_static, Hint|]. intros duration.
  eapply triple_bind; [apply triple_static, Hfloat|]. intros rtf.
  apply triple_ret. intros st Hsaved. exists path. split; [exact Hsaved|].
  eauto 10.
Qed.

(** X18: a conversion that returns audio has saved it, under a [vc_*.wav]
    name, at the returned sample rate, and the status text names the
    path. *)
Theorem vc_success_is_saved w input_audio target_voice_audio st rate audio
    status st' :
  generate_vc w input_audio target_voice_audio st
  = (Returned (Some (rate, audio), status), st') →
  ∃ path,
    saved_as "vc" audio rate path st'
    ∧ ∃ duration generation_time,
        status = vc_status_msg w duration generation_time path.
Proof.
  intros Hrun.
  enough (Ht : triple (λ _, True)
            (generate_vc w input_audio target_voice_audio)
            (λ r st',
               match r with
               | (Some (rate, audio), status) =>
                   ∃ path,
                     saved_as "vc" audio rate path st'
                     ∧ ∃ duration generation_time,
                         status = vc_status_msg w duration generation_time
                                                path
               | (None, _) => True
               end))
    by exact (Ht st _ st' I Hrun).
  clear. destruct arithmetic_static as (Hlen & Hint & _).
  unfold generate_vc. destruct input_audio as [input|];
    [|apply triple_ret; auto].
  eapply triple_bind; [apply triple_any|]. intros [[m|] status0];
    [|apply triple_ret; auto].
  apply triple_try_except; [|intros ex; apply triple_ret; auto].
  do 4 (eapply triple_bind; [apply triple_any|]; intros ?).
  eapply triple_bind; [apply save_audio_triple|]. intros path.
  eapply triple_bind; [apply triple_static, Hlen|]. intros n.
  eapply triple_bind; [apply triple_static, Hint|]. intros duration.
  apply triple_ret. intros st Hsaved. exists path. split; [exact Hsaved|].
  eauto.
Qed.

(** ** An empty waveform *)

Lemma ask_run {A} (f : list event → A) st :
  ask f st = (Returned (f (calls st)), st).
Proof. reflexivity. Qed.

Lemma call_run {A} ev (answer : list event → outcome A) st :
  call ev answer st = (answer (calls st), record_call ev st).
Proof. reflexivity. Qed.

Lemma load_model_loaded w k st m :
  CHATTERBOX_AVAILABLE w = true → session k st = Some m →
  load_model w k st = (Returned (Some m, already_loaded_status k), st).
Proof.
  intros Hav Hm. unfold load_model, try_except. rewrite Hav. simpl.
  rewrite bind_run. unfold get. rewrite Hm. reflexivity.
Qed.

(** X19: a synthesis whose model returns an empty waveform is reported as
    failed, with the message of the division by the zero duration, after
    the empty file has been saved to the history. *)
Theorem empty_audio_fails_after_saving w st text reference_audio
    exaggeration cfg_weight temperature seed preset m wav audio files rest :
  ¬ blank text → len text ≤ MAX_TEXT_LENGTH →
  CHATTERBOX_AVAILABLE w = true → session TTS st = Some m →
  history_dir st = Some files →
  seed ≠ 0 → seeders_accept w seed →
  (∀ params l, tts_generate w m text params l = Returned wav) →
  (∀ l, tensor_numpy w (squeeze0 wav) l = Returned audio) →
  (∀ path a r l, torchaudio_save w path a r l = Returned tt) →
  shape audio = 0 :: rest →
  sr m ≠ 0 →
  PrimFloat.eqb (PrimFloat.div (float_of_int 0) (float_of_int (sr m))) 0
  = true →
  ∃ st' path,
    generate_tts w text reference_audio exaggeration cfg_weight temperature
                 seed preset st
    = (Returned
         (None,
          tts_error_msg w (Exn "ZeroDivisionError" "float division by zero")),
       st')
    ∧ saved_as "tts" audio (sr m) path st'.
Proof.
  intros Hnb Hlen Hav Hm Hdir Hseed Hacc Hgen Hnumpy Hsave Hshape Hsr Hzero.
  unfold generate_tts.
  destruct (negb (truthy text) || negb (truthy (strip text))) eqn:Hb;
    [apply strip_blank in Hb; contradiction|].
  destruct (Z.gtb_spec (len text) MAX_TEXT_LENGTH); [lia|].
  rewrite bind_run. unfold load_tts_model.
  rewrite (load_model_loaded w TTS st m Hav Hm). cbv beta iota.
  unfold try_except.
  destruct (effective_settings _ _ _ _) as [[e' c'] t'].
  rewrite bind_run, set_seed_nonzero_run by assumption. cbv beta iota.
  rewrite bind_run, ask_run. cbv beta iota.
  rewrite bind_run, call_run, Hgen. cbv beta iota.
  rewrite bind_run, ask_run. cbv beta iota.
  rewrite bind_run, call_run, Hnumpy. cbv beta iota.
  rewrite bind_run, save_audio_run. cbv zeta. rewrite Hsave.
  cbn [history_dir record_call seeded]. rewrite Hdir. cbv beta iota.
  rewrite bind_run. unfold array_len at 1. rewrite Hshape, ret_run.
  cbv beta iota.
  rewrite bind_run. unfold int_truediv at 1.
  destruct (Z.eqb_spec (sr m) 0) as [|_]; [contradiction|].
  rewrite ret_run. cbv beta iota.
  rewrite bind_run. unfold float_truediv at 1. rewrite Hzero.
  unfold raise. cbv beta iota. rewrite ret_run.
  eexists _, _. split; [reflexivity|].
  eexists _, _. split; [reflexivity|].
  split; [apply saved_under_history_filename|].
  split; [reflexivity|]. apply lookup_insert_eq.
Qed.

(** ** Sample texts *)

(** X20: whatever is chosen and however [int] reads it, [load_sample_text]
    gives the empty text or one of the sample texts, never anything
    else; "Custom" gives the empty text. *)
Theorem load_sample_text_range int sample_choice :
  (load_sample_text int sample_choice = EmptyString
   ∨ load_sample_text int sample_choice ∈ SAMPLE_TEXTS)
  ∧ load_sample_text int "Custom" = EmptyString.
Proof.
  split; [|reflexivity]. unfold load_sample_text.
  destruct (decide (sample_choice = "Custom")) as [|_]; [left; reflexivity|].
  destruct (int (before_dot sample_choice)) as [n|]; [|left; reflexivity].
  cbv zeta. destruct ((0 <=? n - 1) && (n - 1 <? len SAMPLE_TEXTS));
    [|left; reflexivity].
  destruct (SAMPLE_TEXTS !! Z.to_nat (n - 1)) as [text|] eqn:Hlook;
    [|left; reflexivity].
  right. simpl. apply list_elem_of_lookup. eauto.
Qed.

(** X21: every sample of the dropdown loads its text.  With an [int] that
    reads the decimal numbers 1 to 6, choosing the label of the i-th
    sample gives the i-th sample text in full, although the label shows
    only its first fifty characters. *)
Theorem sample_choice_round_trip int i text :
  (∀ n, 1 ≤ n ≤ 6 → int (str_int n) = Some n) →
  SAMPLE_TEXTS !! i = Some text →
  sample_label i text ∈ sample_choices
  ∧ load_sample_text int (sample_label i text) = text.
Proof.
  intros Hint Hlook. split.
  - unfold sample_choices. apply list_elem_of_further.
    apply list_elem_of_lookup. exists i. rewrite list_lookup_imap, Hlook.
    reflexivity.
  - destruct i as [|[|[|[|[|[|i]]]]]]; [..|discriminate];
      injection Hlook as <-; unfold load_sample_text;
      (destruct (decide _) as [Heq|_]; [vm_compute in Heq; discriminate|]);
      match goal with
      | |- context [int ?s] =>
          let s' := eval vm_compute in s in change s with s'
      end.
    + change "1" with (str_int 1). rewrite Hint by lia. reflexivity.
    + change "2" with (str_int 2). rewrite Hint by lia. reflexivity.
    + change "3" with (str_int 3). rewrite Hint by lia. reflexivity.
    + change "4" with (str_int 4). rewrite Hint by lia. reflexivity.
    + change "5" with (str_int 5). rewrite Hint by lia. reflexivity.
    + change "6" with (str_int 6). rewrite Hint by lia. reflexivity.
Qed.

(** ** The launcher's checks and environment *)


(** X23: what the launcher leaves in the environment of the application.
    The host and the port of the command line are in
    [GRADIO_SERVER_NAME] and [GRADIO_SERVER_PORT], [CUDA_VISIBLE_DEVICES]
    is emptied with [--cpu] and untouched without, and no other variable
    changes; the application for its part calls [launch] on 0.0.0.0 and
    port 7860 whatever host and port were given. *)
Theorem launcher_environment mc args environ environ' kwargs :
  run_gradio_app.main mc args environ
  = run_gradio_app.Launched environ' kwargs →
  environ' !! "GRADIO_SERVER_NAME" = Some (run_gradio_app.host args)
  ∧ environ' !! "GRADIO_SERVER_PORT"
    = Some (str_int (run_gradio_app.port args))
  ∧ environ' !! "CUDA_VISIBLE_DEVICES"
    = (if run_gradio_app.cpu args then Some EmptyString
       else environ !! "CUDA_VISIBLE_DEVICES")
  ∧ (∀ variable, variable ∉ launcher_variables →
                 environ' !! variable = environ !! variable)
  ∧ server_name kwargs = "0.0.0.0"
  ∧ server_port kwargs = 7860.
Proof.
  unfold run_gradio_app.main.
  destruct (_ && _); [discriminate|].
  destruct (truthy _); [discriminate|].
  destruct (negb (run_gradio_app.check_chatterbox mc)); [discriminate|].
  destruct (negb (run_gradio_app.app_file_exists mc)); [discriminate|].
  destruct (run_gradio_app.import_app mc); [discriminate|].
  intros [= <- <-].
  assert (Hshare : ∀ (env : gmap string string) variable,
            variable ≠ "GRADIO_SHARE" →
            (if run_gradio_app.no_share args
             then <["GRADIO_SHARE" := "False"]> env
             else <["GRADIO_SHARE" := "True"]> env) !! variable
            = env !! variable)
    by (intros env variable Hne; destruct (run_gradio_app.no_share args);
        apply lookup_insert_ne; congruence).
  split; [|split; [|split; [|split; [|split; reflexivity]]]].
  - rewrite Hshare by discriminate.
    rewrite lookup_insert_ne by discriminate. apply lookup_insert_eq.
  - rewrite Hshare by discriminate. apply lookup_insert_eq.
  - rewrite Hshare by discriminate.
    rewrite !lookup_insert_ne by discriminate.
    destruct (run_gradio_app.cpu args); [apply lookup_insert_eq|reflexivity].
  - intros variable Hnot. unfold launcher_variables in Hnot.
    rewrite !not_elem_of_cons in Hnot.
    destruct Hnot as (Hcuda & Hname & Hport & Hsh & _).
    rewrite Hshare by assumption.
    rewrite !lookup_insert_ne by congruence.
    destruct (run_gradio_app.cpu args); [|reflexivity].
    apply lookup_insert_ne. congruence.
Qed.

(** The pip runs of the loop are the runs for a first stretch of the
    packages, after those made before; the loop returns true only when it
    went through all the packages, and false when its last run failed;
    every run before a failing one succeeded. *)
Lemma install_each_spec pk todo :
  ∀ ran,
    ∃ n,
      (install_each pk todo ran).2
      = (ran ++ ((λ package, pip_install [package]) <$> take n todo))%list
      ∧ (n ≤ length todo)%nat
      ∧ ((install_each pk todo ran).1 = true → n = length todo)
      ∧ ((install_each pk todo ran).1 = false →
         ∃ package,
           todo !! (n - 1)%nat = Some package
           ∧ (0 < n)%nat
           ∧ pip_succeeds pk (pip_install [package])
               (ran ++ ((λ package, pip_install [package])
                          <$> take (n - 1) todo))%list
             = false)
      ∧ (∀ i package,
           (i < if (install_each pk todo ran).1 then n else n - 1)%nat →
           todo !! i = Some package →
           pip_succeeds pk (pip_install [package])
             (ran ++ ((λ package, pip_install [package]) <$> take i todo))%list
           = true).
Proof.
  induction todo as [|package rest IH]; intros ran.
  - exists 0%nat. simpl. rewrite app_nil_r.
    repeat split; auto; try discriminate; intros; lia.
  - cbn [install_each]. cbv zeta.
    destruct (pip_succeeds pk (pip_install [package]) ran) eqn:Hpip.
    + destruct (IH (ran ++ [pip_install [package]])%list)
        as (n & Hran & Hn & Hok & Hfail & Hbefore).
      exists (S n). rewrite Hran. cbn [take fmap list_fmap length].
      rewrite <- app_assoc. split; [reflexivity|]. split; [lia|].
      split; [intros Htrue; rewrite (Hok Htrue); reflexivity|]. split.
      * intros Hfalse. destruct (Hfail Hfalse) as (p & Hp & Hpos & Hlast).
        exists p. replace (S n - 1)%nat with (S (n - 1)) by lia.
        split; [exact Hp|]. split; [lia|].
        cbn [take fmap list_fmap]. rewrite <- app_assoc in Hlast. exact Hlast.
      * intros [|i] p Hi Hp.
        -- injection Hp as <-. simpl. rewrite app_nil_r. exact Hpip.
        -- cbn [take fmap list_fmap].
           specialize (Hbefore i p). rewrite <- app_assoc in Hbefore.
           apply Hbefore; [|exact Hp].
           destruct (install_each pk rest _).1; lia.
    + exists 1%nat. cbn [take fmap list_fmap length fst snd].
      split; [reflexivity|]. split; [lia|]. split; [discriminate|]. split.
      * intros _. exists package. simpl. rewrite app_nil_r. auto.
      * intros i p Hi. lia.
Qed.

(** X24: how [install_dependencies] goes about it.  With a requirements
    file it runs pip once, on the file, and its result is that run's.
    Without, it installs the six core packages one by one, stops at the
    first run that fails and then returns false with no later package
    tried; it returns true only when it went through all six. *)
Theorem install_stops_at_first_failure pk :
  (requirements_file_exists pk = true →
   run_install pk
   = (pip_succeeds pk (pip_install ["-r"; "gradio_requirements.txt"]) [],
      [pip_install ["-r"; "gradio_requirements.txt"]]))
  ∧ (requirements_file_exists pk = false →
     ∃ n,
       (run_install pk).2
       = (λ package, pip_install [package]) <$> take n core_packages
       ∧ (n ≤ 6)%nat
       ∧ ((run_install pk).1 = true → n = 6%nat)
       ∧ ((run_install pk).1 = false →
          ∃ package,
            core_packages !! (n - 1)%nat = Some package
            ∧ pip_succeeds pk (pip_install [package])
                ((λ package, pip_install [package])
                   <$> take (n - 1) core_packages)
              = false)
       ∧ (∀ i package,
            (i < if (run_install pk).1 then n else n - 1)%nat →
            core_packages !! i = Some package →
            pip_succeeds pk (pip_install [package])
              ((λ package, pip_install [package]) <$> take i core_packages)
            = true)).
Proof.
  unfold run_install. split; intros Hreq; rewrite Hreq; [reflexivity|].
  destruct (install_each_spec pk core_packages [])
    as (n & Hran & Hn & Hok & Hfail & Hbefore).
  exists n. split; [exact Hran|]. split; [exact Hn|]. split; [exact Hok|].
  split; [|exact Hbefore].
  intros Hfalse. destruct (Hfail Hfalse) as (p & Hp & _ & Hlast). eauto.
Qed.


(** ** The further properties at work *)

(** New Year's midnight against New Year's Eve. *)
Lemma strftime_chronological_witness :
  String.compare "audio_history/vc_20240101_000000.wav"
                 "audio_history/vc_20241231_235959.wav"
  = Lt.
Proof.
  exact (proj2 (strftime_chronological "vc" (Datetime 2024 1 1 0 0 0)
                  (Datetime 2024 12 31 23 59 59)
                  ltac:(repeat split; reflexivity)
                  ltac:(repeat split; reflexivity))).
Defined.

(** The listing after a conversion and a synthesis. *)
Lemma history_listing_witness :
  StronglySorted str_ge
    [ "audio_history/vc_20240101_000003.wav";
      "audio_history/tts_20240101_000012.wav" ]
  ∧ NoDup [ "audio_history/vc_20240101_000003.wav";
            "audio_history/tts_20240101_000012.wav" ].
Proof.
  assert (Hrun : get_audio_history Stub.after_vc_then_tts
                 = (Returned [ "audio_history/vc_20240101_000003.wav";
                               "audio_history/tts_20240101_000012.wav" ],
                    Stub.after_vc_then_tts))
    by (rewrite get_audio_history_run; do 2 f_equal; vm_compute; reflexivity).
  destruct (history_listing _ _ _ Hrun) as (_ & Hsorted & Hnodup & _).
  split; assumption.
Defined.

(** The first save into an empty history. *)
Lemma save_then_lookup_witness :
  ∃ files',
    history_dir (snd Stub.saved_vc) = Some files'
    ∧ files' !! history_filename "vc" (Stub.clock [])
      = Some (WavFile Stub.silence 4).
Proof.
  assert (Hrun : save_audio_to_history Stub.good_world Stub.silence 4 "vc"
                   (initial_state ∅)
                 = (Returned "audio_history/vc_20240101_000000.wav",
                    snd Stub.saved_vc))
    by (rewrite save_audio_run; reflexivity).
  destruct (save_then_lookup _ _ _ _ _ _ _ Hrun)
    as (_ & files & files' & _ & Hdir & Hlook & _).
  exists files'. split; [exact Hdir|exact Hlook].
Defined.


(** A second synthesis, one second after the first. *)
Lemma newest_first_within_prefix_witness :
  ∃ rest st',
    get_audio_history st'
    = (Returned ("audio_history/tts_20240101_000001.wav" :: rest), st').
Proof.
  assert (Hrun : save_audio_to_history Stub.good_world Stub.silence 4 "tts"
                   Scenario.one_tts_saved
                 = (Returned "audio_history/tts_20240101_000001.wav",
                    snd (save_audio_to_history Stub.good_world Stub.silence 4
                           "tts" Scenario.one_tts_saved)))
    by (rewrite save_audio_run; reflexivity).
  edestruct (newest_first_within_prefix Stub.good_world Stub.silence 4 "tts"
               Scenario.one_tts_saved) as [rest Hrest];
    [| |exact Hrun|eauto].
  - repeat split; reflexivity.
  - assert (Hdir : history_dir Scenario.one_tts_saved
                   = Some (<[history_filename "tts" (Datetime 2024 1 1 0 0 0)
                             := WavFile Stub.silence 4]> ∅))
      by reflexivity.
    intros files name Hfiles Hin. rewrite Hdir in Hfiles.
    injection Hfiles as <-. apply elem_of_glob_wav in Hin as [Hsome _].
    exists (Datetime 2024 1 1 0 0 0).
    split; [repeat split; reflexivity|]. split; [|reflexivity].
    destruct (decide (name = history_filename "tts" (Datetime 2024 1 1 0 0 0)))
      as [|Hne]; [assumption|].
    rewrite lookup_insert_ne, lookup_empty in Hsome by congruence.
    destruct Hsome; discriminate.
Defined.

(** Two saves while the clock stands still. *)
Lemma same_second_overwrites_witness :
  fst (get_audio_history
         (snd (save_audio_to_history Scenario.frozen_world Stub.silence 8
                 "tts"
                 (snd (save_audio_to_history Scenario.frozen_world
                         Stub.silence 4 "tts" Stub.fresh)))))
  = fst (get_audio_history
           (snd (save_audio_to_history Scenario.frozen_world Stub.silence 4
                   "tts" Stub.fresh))).
Proof.
  refine (proj1 (proj2
    (same_second_overwrites Scenario.frozen_world Stub.silence 4
       Stub.silence 8 "tts" Stub.fresh
       "audio_history/tts_20240601_120000.wav"
       (snd (save_audio_to_history Scenario.frozen_world Stub.silence 4
               "tts" Stub.fresh))
       "audio_history/tts_20240601_120000.wav"
       (snd (save_audio_to_history Scenario.frozen_world Stub.silence 8
               "tts"
               (snd (save_audio_to_history Scenario.frozen_world
                       Stub.silence 4 "tts" Stub.fresh))))
       _ _ _)));
    try (rewrite save_audio_run); reflexivity.
Defined.

(** Clearing a history of two files. *)
Lemma clear_succeeds_when_deletes_do_witness :
  ∃ st',
    clear_audio_history Stub.good_world Stub.after_vc_then_tts
    = (Returned "✅ Audio history cleared successfully", st').
Proof.
  destruct (clear_succeeds_when_deletes_do Stub.good_world
              Stub.after_vc_then_tts) as (st' & Hrun & _);
    [reflexivity|eauto].
Defined.


(** A clearing, a synthesis and two loads after the TTS model was
    loaded. *)
Lemma loaded_is_terminal_witness :
  session TTS
    (foldl (perform Scenario.locked_world) Scenario.tts_loaded
       [ do_clear;
         do_tts Stub.hello_world None 0.5 0.5 0.8 0 "Neutral";
         do_load VC;
         do_load TTS ])
  = Some Stub.stub_model.
Proof. apply loaded_is_terminal. reflexivity. Defined.

(** A machine without the model library. *)
Lemma without_library_nothing_happens_witness :
  load_model Stub.bare_world VC Stub.after_vc_then_tts
  = (Returned (None, not_installed_status), Stub.after_vc_then_tts).
Proof.
  apply (proj1 (without_library_nothing_happens Stub.bare_world eq_refl)).
Defined.

(** A download that fails. *)
Lemma construction_failure_reported_witness :
  generate_vc Stub.flaky_world (Some "input.wav") None Stub.fresh
  = (Returned (None, load_error_msg VC (Exn "OSError" "download failed")),
     record_call (from_pretrained_call VC "cpu") Stub.fresh).
Proof.
  apply (proj2 (construction_failure_reported Stub.flaky_world Stub.fresh
                  (Exn "OSError" "download failed") eq_refl));
    reflexivity.
Defined.

(** Seed 0 on a generator that draws 42. *)
Lemma set_seed_seeds_all_witness :
  calls (snd (set_seed Stub.good_world 0 Stub.fresh))
  = [ seed_call np_random_seed 42; seed_call random_seed 42;
      seed_call torch_cuda_manual_seed_all 42; seed_call torch_manual_seed 42;
      randint_call 1 1000000 ].
Proof.
  apply (set_seed_seeds_all Stub.good_world 0 Stub.fresh 42).
  reflexivity.
Defined.

(** A synthesis that succeeds. *)
Lemma tts_success_is_saved_witness :
  ∃ path,
    saved_as "tts" (Tensor [4] (data Stub.silence)) 4 path
      (snd (generate_tts Stub.good_world Stub.hello_world None 0.5 0.5 0.8 7
                         "Neutral" Stub.fresh)).
Proof.
  edestruct (tts_success_is_saved Stub.good_world Stub.hello_world None
               0.5 0.5 0.8 7 "Neutral" Stub.fresh 4
               (Tensor [4] (data Stub.silence))) as (path & Hsaved & _);
    [|exists path; exact Hsaved].
  rewrite (surjective_pairing (generate_tts _ _ _ _ _ _ _ _ _)).
  f_equal; vm_compute; reflexivity.
Defined.

(** A conversion that succeeds. *)
Lemma vc_success_is_saved_witness :
  ∃ path,
    saved_as "vc" (Tensor [4] (data Stub.silence)) 4 path
      (snd (generate_vc Stub.good_world (Some "input.wav") None Stub.fresh)).
Proof.
  edestruct (vc_success_is_saved Stub.good_world (Some "input.wav") None
               Stub.fresh 4 (Tensor [4] (data Stub.silence)))
    as (path & Hsaved & _);
    [|exists path; exact Hsaved].
  rewrite (surjective_pairing (generate_vc _ _ _ _)).
  f_equal; vm_compute; reflexivity.
Defined.

(** A model that returns no samples. *)
Lemma empty_audio_fails_after_saving_witness :
  ∃ st' path,
    generate_tts Scenario.mute_world Stub.hello_world None 0.5 0.5 0.8 7
                 "Neutral" Scenario.tts_loaded
    = (Returned
         (None,
          tts_error_msg Scenario.mute_world
            (Exn "ZeroDivisionError" "float division by zero")),
       st')
    ∧ saved_as "tts" (Tensor [0] []) 4 path st'.
Proof.
  apply (empty_audio_fails_after_saving Scenario.mute_world
           Scenario.tts_loaded Stub.hello_world None 0.5 0.5 0.8 7 "Neutral"
           Stub.stub_model Scenario.no_samples (Tensor [0] []) ∅ []);
    try reflexivity; try discriminate.
  - intros Hb. inversion Hb. discriminate.
  - intros f l. reflexivity.
Defined.

(** The fourth sample of the dropdown. *)
Lemma sample_choice_round_trip_witness :
  load_sample_text Scenario.read_decimal
    "4. To be or not to be, that is the question. Whether ..."
  = "To be or not to be, that is the question. Whether 'tis nobler in the mind to suffer the slings and arrows of outrageous fortune.".
Proof.
  refine (proj2 (sample_choice_round_trip Scenario.read_decimal 3 _ _ _)).
  - intros n Hn.
    assert (Hcases : n = 1 ∨ n = 2 ∨ n = 3 ∨ n = 4 ∨ n = 5 ∨ n = 6) by lia.
    destruct Hcases as [->|[->|[->|[->|[->| ->]]]]]; reflexivity.
  - reflexivity.
Defined.

(** The launcher with [--cpu --port 8080]. *)
Lemma launcher_environment_witness :
  ∃ environ kwargs,
    run_gradio_app.main Stub.ready_machine
      (run_gradio_app.Args 8080 "127.0.0.1" false true false)
      {[ "HOME" := "/root" ]}
    = run_gradio_app.Launched environ kwargs
    ∧ environ !! "GRADIO_SERVER_PORT" = Some "8080"
    ∧ environ !! "HOME" = Some "/root"
    ∧ server_port kwargs = 7860.
Proof.
  eexists _, _. split; [reflexivity|].
  edestruct (launcher_environment Stub.ready_machine
               (run_gradio_app.Args 8080 "127.0.0.1" false true false)
               {[ "HOME" := "/root" ]})
    as (_ & Hport & _ & Hother & _ & Hkw); [reflexivity|].
  split; [exact Hport|]. split; [|exact Hkw].
  rewrite Hother; [apply lookup_singleton_eq|].
  unfold launcher_variables. rewrite !not_elem_of_cons.
  repeat split; try discriminate. apply not_elem_of_nil.
Defined.

